(** * A shallow embedding of [frontend/static/ui.js]

    The file models the three parts of the UI runtime: the differ
    ([eventName], [diffOne], [removeEmpty], [diffList]), the patcher
    ([create], [modify], [apply]) and the message loop of [init]
    ([enqueue], [draw], [updateState]).

    Conventions of the embedding.
    - A JavaScript value that the code only stores, compares with [===]
      or hands to the host is a [value]: [undefined], a string, or a
      reference to an object (closures included), identified by its
      allocation number.
    - A JavaScript object used as a dictionary is an association list in
      insertion order, which is the order [for ... in] enumerates the
      names the code uses (none of them is an array index).
    - A [throw] is the [Err] branch of [result].  Functions that allocate
      closures thread the allocation counter explicitly. *)

From Stdlib Require Import List String Ascii Bool Arith ZArith Lia.
From Stdlib Require Import DecimalString.
Import ListNotations.
Local Open Scope string_scope.
Local Open Scope list_scope.

Set Implicit Arguments.
Set Warnings "-register-all".

(* ================================================================= *)
(** ** JavaScript values and dictionaries *)

Module JS.

Inductive value : Type :=
| VUndef
| VStr (s : string)
| VObj (ref : nat).

(** [a === b] *)
Definition strict_eq (a b : value) : bool :=
  match a, b with
  | VUndef, VUndef => true
  | VStr s, VStr t => String.eqb s t
  | VObj m, VObj n => Nat.eqb m n
  | _, _ => false
  end.

Definition is_undefined (a : value) : bool := strict_eq a VUndef.

(** [String(v)], as [setAttribute] applies it to its second argument.
    An object is taken to be a plain one. *)
Definition toString (v : value) : string :=
  match v with
  | VUndef => "undefined"
  | VStr s => s
  | VObj _ => "[object Object]"
  end.

(** A dictionary [{ name: v, ... }]. *)
Definition dict (V : Type) : Type := list (string * V).

Fixpoint lookup {V} (k : string) (o : dict V) : option V :=
  match o with
  | [] => None
  | (k', v) :: o' => if String.eqb k k' then Some v else lookup k o'
  end.

(** [o[k]]: [undefined] when [k] is not a property of [o]. *)
Definition get (k : string) (o : dict value) : value :=
  match lookup k o with
  | Some v => v
  | None => VUndef
  end.

(** [o[k] = v]: overwrite in place, or add as the last property. *)
Fixpoint set {V} (k : string) (v : V) (o : dict V) : dict V :=
  match o with
  | [] => [(k, v)]
  | (k', v') :: o' =>
      if String.eqb k k' then (k, v) :: o' else (k', v') :: set k v o'
  end.

(** The names [for (const k in o)] and [Object.keys(o)] run through. *)
Definition keys {V} (o : dict V) : list string := map fst o.

(** [s.indexOf(needle)]: the least position at which [needle] occurs in
    [s], or [-1]. *)
Fixpoint indexOf_from (needle s : string) (k : nat) : Z :=
  if String.prefix needle s then Z.of_nat k
  else match s with
       | EmptyString => (-1)%Z
       | String _ s' => indexOf_from needle s' (S k)
       end.

Definition indexOf (s needle : string) : Z := indexOf_from needle s 0.

(** [s.slice(n)] for [0 <= n]. *)
Fixpoint slice (n : nat) (s : string) : string :=
  match n, s with
  | 0, _ => s
  | S _, EmptyString => EmptyString
  | S n', String _ s' => slice n' s'
  end.

Definition lower_char (c : ascii) : ascii :=
  let n := nat_of_ascii c in
  if ((65 <=? n)%nat && (n <=? 90)%nat)%bool then ascii_of_nat (n + 32) else c.

(** [s.toLowerCase()] on the ASCII letters. *)
Fixpoint toLowerCase (s : string) : string :=
  match s with
  | EmptyString => EmptyString
  | String c s' => String (lower_char c) (toLowerCase s')
  end.

(** The property name of array index [i], as [for ... in] over an array
    yields it. *)
Definition index_name (i : nat) : string :=
  NilEmpty.string_of_uint (Nat.to_uint i).

End JS.
Import JS.

(* ================================================================= *)
(** ** Exceptions *)

Inductive error : Type :=
| TypeError                         (* raised by the engine *)
| HierarchyRequestError             (* raised by the DOM *)
| UnmatchedChildren                 (* "unmatched children lengths" *)
| AddingInTheMiddle (k len : nat).  (* "Adding in the middle of children: k len" *)

Inductive result (A : Type) : Type :=
| OK (a : A)
| Err (e : error).
Arguments OK {A} a.
Arguments Err {A} e.

Definition rbind {A B} (r : result A) (f : A -> result B) : result B :=
  match r with
  | OK a => f a
  | Err e => Err e
  end.

Declare Scope result_scope.
Delimit Scope result_scope with result.
Notation "x <- r ;; k" := (rbind r (fun x => k))
  (at level 61, r at next level, right associativity) : result_scope.

(* ================================================================= *)
(** ** Specs and diffs *)

(** <<
    Spec = { tag, attributes, children } | { textContent } | { empty : true }
    >> *)
Inductive Spec : Type :=
| Element (tag : string) (attributes : dict value) (children : list Spec)
| Text (textContent : string)
| Empty.

Record ContentsDiffOf (E : Type) : Type := mkContentsDiff {
  removeAttr : list string;
  setAttr : dict value;
  removeListeners : dict value;
  addListeners : dict value;
  children : list E
}.

(** <<
    ElementDiff = Replace Element | Remove | Create Element
                | Modify ContentsDiff | Noop
    >> *)
Inductive ElementDiff : Type :=
| Replace (r : Spec)
| Remove
| Create (r : Spec)
| Modify (d : ContentsDiffOf ElementDiff)
| Noop.

Definition ContentsDiff : Type := ContentsDiffOf ElementDiff.

(** [e.noop] as a condition *)
Definition is_noop (e : ElementDiff) : bool :=
  match e with
  | Noop => true
  | _ => false
  end.

(** [e.empty] as a condition *)
Definition is_empty (e : Spec) : bool :=
  match e with
  | Empty => true
  | _ => false
  end.

(* ================================================================= *)
(** ** The differ *)

(** <<
    function eventName(str) {
      if (str.indexOf("on") == 0) { return str.slice(2).toLowerCase(); }
      return null;
    }
    >> *)
Definition eventName (str : string) : option string :=
  if (indexOf str "on" =? 0)%Z then Some (toLowerCase (slice 2 str))
  else None.

(** [Array.from(els).filter(e => !e.empty)] *)
Definition removeEmpty (els : list Spec) : list Spec :=
  filter (fun e => negb (is_empty e)) els.

(** The four accumulators [diffOne] fills before it looks at the
    children. *)
Record Delta : Type := mkDelta {
  d_removeAttr : list string;
  d_setAttr : dict value;
  d_removeListeners : dict value;
  d_addListeners : dict value
}.

Definition noDelta : Delta := mkDelta [] [] [] [].

(** Body of [for (const attr in l.attributes)]. *)
Definition removedStep (l r : dict value) (acc : Delta) (attr : string) : Delta :=
  if is_undefined (get attr r) then
    match eventName attr with
    | Some event =>
        mkDelta (d_removeAttr acc) (d_setAttr acc)
                (set event (get attr l) (d_removeListeners acc))
                (d_addListeners acc)
    | None =>
        mkDelta (d_removeAttr acc ++ [attr]) (d_setAttr acc)
                (d_removeListeners acc) (d_addListeners acc)
    end
  else acc.

(** Body of [for (const attr in r.attributes)]. *)
Definition changedStep (l r : dict value) (acc : Delta) (attr : string) : Delta :=
  if negb (strict_eq (get attr r) (get attr l)) then
    match eventName attr with
    | None =>
        mkDelta (d_removeAttr acc) (set attr (get attr r) (d_setAttr acc))
                (d_removeListeners acc) (d_addListeners acc)
    | Some event =>
        mkDelta (d_removeAttr acc) (d_setAttr acc)
                (set event (get attr l) (d_removeListeners acc))
                (set event (get attr r) (d_addListeners acc))
    end
  else acc.

Definition attrDelta (l r : dict value) : Delta :=
  fold_left (changedStep l r) (keys r)
            (fold_left (removedStep l r) (keys l) noDelta).

(** The tail of [diffOne], from [const noChildrenChange] on. *)
Definition finishDiff (d : Delta) (children : list ElementDiff) : ElementDiff :=
  let noChildrenChange := forallb is_noop children in
  let noAttributeChange :=
    ((List.length (d_removeAttr d) =? 0)%nat
     && (List.length (keys (d_setAttr d)) =? 0)%nat)%bool in
  if noChildrenChange && noAttributeChange then Noop
  else Modify (mkContentsDiff (d_removeAttr d) (d_setAttr d)
                              (d_removeListeners d) (d_addListeners d)
                              children).

Section DiffChildren.
Local Open Scope result_scope.
Variable diffOne : Spec -> Spec -> result ElementDiff.

(** The loop of [diffList] as a walk down the left list: [ls_raw] is
    still unfiltered (its [Empty] entries are stepped over), [rs] is
    filtered already.  [diffList_unfold] below shows that this is the
    indexed loop of the source. *)
Fixpoint diffWalk (ls_raw rs : list Spec) : result (list ElementDiff) :=
  match ls_raw with
  | [] => OK (map Create rs)
  | l :: ls' =>
      if is_empty l then diffWalk ls' rs
      else match rs with
           | [] => ds <- diffWalk ls' [] ;; OK (Remove :: ds)
           | r :: rs' =>
               d <- diffOne l r ;;
               ds <- diffWalk ls' rs' ;;
               OK (d :: ds)
           end
  end.
End DiffChildren.

(** [diffOne(l, r)].  A property that a spec does not have reads as
    [undefined]: [Empty] has neither [textContent] nor [tag], and
    [Array.from(undefined)] in [removeEmpty] throws a [TypeError]. *)
Fixpoint diffOne (l r : Spec) : result ElementDiff :=
  match l with
  | Text lt =>
      (* isText *)
      match r with
      | Text rt => if negb (String.eqb lt rt) then OK (Replace r) else OK Noop
      | _ => OK (Replace r)
      end
  | Element ltag lattrs lchildren =>
      match r with
      | Element rtag rattrs rchildren =>
          if negb (String.eqb ltag rtag) then OK (Replace r)
          else
            rbind (diffWalk diffOne lchildren (removeEmpty rchildren))
                  (fun children => OK (finishDiff (attrDelta lattrs rattrs) children))
      | _ => OK (Replace r)       (* l.tag !== undefined *)
      end
  | Empty =>
      match r with
      | Element _ _ _ => OK (Replace r)  (* undefined !== r.tag *)
      | _ => Err TypeError               (* diffList(undefined, undefined) *)
      end
  end.

(** One iteration of the loop of [diffList]. *)
Definition diffAt (ls rs : list Spec) (i : nat) : result ElementDiff :=
  match nth_error ls i with
  | None => OK (Create (nth i rs Empty))
  | Some l =>
      match nth_error rs i with
      | None => OK Remove
      | Some r => diffOne l r
      end
  end.

(** [for (let i = 0; i < len; i++) diffs.push(f(i))] with a body that may
    throw. *)
Fixpoint pushEach {A} (f : nat -> result A) (idx : list nat) : result (list A) :=
  match idx with
  | [] => OK []
  | i :: idx' =>
      rbind (f i) (fun d => rbind (pushEach f idx') (fun ds => OK (d :: ds)))
  end.

(** <<
    function diffList(ls_raw, rs_raw) {
      let ls = removeEmpty(ls_raw);
      let rs = removeEmpty(rs_raw);
      let len = Math.max(ls.length, rs.length);
      let diffs = [];
      for (let i = 0; i < len; i++) {
        diffs.push(ls[i] === undefined ? { create: rs[i] }
                 : rs[i] == undefined ? { remove: true }
                 : diffOne(ls[i], rs[i]));
      }
      return diffs;
    }
    >> *)
Definition diffList (ls_raw rs_raw : list Spec) : result (list ElementDiff) :=
  let ls := removeEmpty ls_raw in
  let rs := removeEmpty rs_raw in
  let len := Nat.max (List.length ls) (List.length rs) in
  pushEach (diffAt ls rs) (seq 0 len).

(* ================================================================= *)
(** ** The live tree and the host operations the patcher calls *)

(** What a registered listener calls: an arrow function
    [() => enqueue(msg)] that [create] or [modify] allocated (object
    number [ref], capturing [msg]), or an object the caller holds. *)
Inductive callback : Type :=
| Arrow (ref : nat) (msg : value)
| Foreign (v : value).

(** Identity of callbacks, as the host compares them. *)
Definition same_callback (a b : callback) : bool :=
  match a, b with
  | Arrow m _, Arrow n _ => Nat.eqb m n
  | Foreign u, Foreign v => strict_eq u v
  | _, _ => false
  end.

Record listener : Type := mkListener {
  l_type : string;
  l_callback : callback
}.

Definition same_listener (a b : listener) : bool :=
  (String.eqb (l_type a) (l_type b)
   && same_callback (l_callback a) (l_callback b))%bool.

Inductive Node : Type :=
| ElementNode (tagName : string) (attrs : dict string)
              (listeners : list listener) (kids : list Node)
| TextNode (data : string) (listeners : list listener).

(** The operations of the host that the patcher calls, on the tree
    above, for HTML elements.  A listener is found by the identity of
    its callback, and a callback that is given as a string is refused
    with a [TypeError].  Attribute names are put in ASCII lower case
    before they are used.  Whether a string is a valid attribute name is
    not modelled; a method that a text node does not have is. *)
Module DOM.

(** [el.childNodes] *)
Definition childNodes (el : Node) : list Node :=
  match el with
  | ElementNode _ _ _ kids => kids
  | TextNode _ _ => []
  end.

Definition listenersOf (el : Node) : list listener :=
  match el with
  | ElementNode _ _ ls _ => ls
  | TextNode _ ls => ls
  end.

Definition attributesOf (el : Node) : dict string :=
  match el with
  | ElementNode _ attrs _ _ => attrs
  | TextNode _ _ => []
  end.

Definition withListeners (ls : list listener) (el : Node) : Node :=
  match el with
  | ElementNode t a _ kids => ElementNode t a ls kids
  | TextNode d _ => TextNode d ls
  end.

Fixpoint delete {V} (k : string) (o : dict V) : dict V :=
  match o with
  | [] => []
  | (k', v) :: o' =>
      if String.eqb k k' then delete k o' else (k', v) :: delete k o'
  end.

(** [el.setAttribute(name, v)]: the attribute is kept under the name
    in lower case; a text node has no such method. *)
Definition setAttribute (name : string) (v : value) (el : Node) : result Node :=
  match el with
  | ElementNode t a ls kids =>
      OK (ElementNode t (set (toLowerCase name) (toString v) a) ls kids)
  | TextNode _ _ => Err TypeError
  end.

(** [el.removeAttribute(name)], on the name in lower case. *)
Definition removeAttribute (name : string) (el : Node) : result Node :=
  match el with
  | ElementNode t a ls kids => OK (ElementNode t (delete (toLowerCase name) a) ls kids)
  | TextNode _ _ => Err TypeError
  end.

(** [el.addEventListener(type, cb)]: appended unless the same callback
    is already registered for [type]. *)
Definition addEventListener (type : string) (cb : callback) (el : Node) : Node :=
  let l := mkListener type cb in
  if existsb (same_listener l) (listenersOf el) then el
  else withListeners (listenersOf el ++ [l]) el.

(** [el.removeEventListener(type, v)]: drops the listener of [type]
    whose callback is the object [v], if there is one.  The second
    argument has to be an object, [null] or [undefined]: for a string
    the host throws a [TypeError]. *)
Definition removeEventListener (type : string) (v : value) (el : Node) : result Node :=
  match v with
  | VStr _ => Err TypeError
  | _ =>
      OK (withListeners
            (filter (fun l => negb (same_listener (mkListener type (Foreign v)) l))
                    (listenersOf el))
            el)
  end.

(** [el.appendChild(child)]; a text node takes no children. *)
Definition appendChild (child : Node) (el : Node) : result Node :=
  match el with
  | ElementNode t a ls kids => OK (ElementNode t a ls (kids ++ [child]))
  | TextNode _ _ => Err HierarchyRequestError
  end.

Definition withChildNodes (kids : list Node) (el : Node) : Node :=
  match el with
  | ElementNode t a ls _ => ElementNode t a ls kids
  | TextNode d ls => TextNode d ls
  end.

Fixpoint removeAt {A} (k : nat) (l : list A) : list A :=
  match k, l with
  | _, [] => []
  | 0, _ :: l' => l'
  | S k', x :: l' => x :: removeAt k' l'
  end.

Fixpoint replaceAt {A} (k : nat) (y : A) (l : list A) : list A :=
  match k, l with
  | _, [] => []
  | 0, _ :: l' => y :: l'
  | S k', x :: l' => x :: replaceAt k' y l'
  end.

(** The messages that reach [enqueue] when an event of [type] is
    dispatched on [el]: every listener registered for [type] runs, in
    registration order. *)
Definition dispatch (type : string) (el : Node) : list value :=
  flat_map (fun l =>
              if String.eqb (l_type l) type then
                match l_callback l with
                | Arrow _ msg => [msg]
                | Foreign _ => []
                end
              else [])
           (listenersOf el).

(** The listeners bound on [el] for [type]. *)
Definition boundFor (type : string) (el : Node) : list listener :=
  filter (fun l => String.eqb (l_type l) type) (listenersOf el).

End DOM.
Import DOM.

(* ================================================================= *)
(** ** The patcher *)

(** Code that allocates closures: the number of the next object goes in
    and comes out. *)
Definition M (A : Type) : Type := nat -> result (A * nat).

Definition ret {A} (a : A) : M A := fun n => OK (a, n).
Definition throw {A} (e : error) : M A := fun _ => Err e.
Definition lift {A} (r : result A) : M A :=
  fun n => match r with OK a => OK (a, n) | Err e => Err e end.
Definition bind {A B} (m : M A) (f : A -> M B) : M B :=
  fun n => match m n with
           | OK (a, n') => f a n'
           | Err e => Err e
           end.
(** [() => enqueue(msg)] *)
Definition newArrow (msg : value) : M callback :=
  fun n => OK (Arrow n msg, S n).

Declare Scope patch_scope.
Delimit Scope patch_scope with patch.
Notation "x <- m ;; k" := (bind m (fun x => k))
  (at level 61, m at next level, right associativity) : patch_scope.
Notation "' pat <- m ;; k" := (bind m (fun x => match x with pat => k end))
  (at level 61, pat pattern, m at next level, right associativity) : patch_scope.

(** [for (x of xs) el = body(el, x)] for a body that may throw or
    allocate. *)
Fixpoint forEach {A S} (body : S -> A -> M S) (xs : list A) (el : S) : M S :=
  match xs with
  | [] => ret el
  | x :: xs' => bind (body el x) (forEach body xs')
  end.

(** [event ? ... : ...] on the result of [eventName]: [null] and the
    empty string are falsy. *)
Definition truthy (event : option string) : bool :=
  match event with
  | None => false
  | Some e => negb (String.eqb e "")
  end.

(** Body of [for (const attr in spec.attributes)] in [create]. *)
Definition createAttr (attributes : dict value) (el : Node) (attr : string) : M Node :=
  let event := eventName attr in
  let value := get attr attributes in
  if truthy event then
    match event with
    | Some ev => bind (newArrow value) (fun cb => ret (addEventListener ev cb el))
    | None => ret el
    end
  else lift (setAttribute attr value el).

Section CreateChildren.
Local Open Scope patch_scope.
Variable create : Spec -> M Node.

(** <<
    for (let i in children) {
      const childSpec = spec.children[i];
      const child = create(enqueue, childSpec);
      el.appendChild(child);
    }
    >>
    [count] is [children.length], the number of indices the loop runs
    through; [raw] is what is left of [spec.children] from index [i]
    on.  [create(enqueue, undefined)] throws on [spec.textContent]. *)
Fixpoint createChildren (raw : list Spec) (count : nat) (el : Node) : M Node :=
  match count with
  | 0 => ret el
  | S count' =>
      match raw with
      | [] => throw TypeError
      | childSpec :: raw' =>
          child <- create childSpec ;;
          el' <- lift (appendChild child el) ;;
          createChildren raw' count' el'
      end
  end.
End CreateChildren.

(** [create(enqueue, spec)].  For [Empty], [spec.tag] and
    [spec.attributes] are [undefined], the attribute loop does not run,
    and [removeEmpty(undefined)] throws a [TypeError]. *)
Fixpoint create (spec : Spec) : M Node :=
  match spec with
  | Text textContent => ret (TextNode textContent [])
  | Element tag attributes children =>
      bind (forEach (createAttr attributes) (keys attributes)
                    (ElementNode tag [] [] []))
           (fun el =>
              let filtered := removeEmpty children in
              createChildren create children (List.length filtered) el)
  | Empty => throw TypeError
  end.

Section Apply.
Local Open Scope patch_scope.
(** One iteration of the loop of [apply], on the pair [(el, k)]. *)
Variable applyStep : ElementDiff -> Node * nat -> M (Node * nat).

(** [for (let i = 0, k = 0; i < childrenDiff.length; i++, k++) ...] *)
Fixpoint applyLoop (childrenDiff : list ElementDiff) (st : Node * nat) : M Node :=
  match childrenDiff with
  | [] => ret (fst st)
  | diff :: rest => st' <- applyStep diff st ;; applyLoop rest st'
  end.

(** <<
    function modify(el, enqueue, diff) {
      for (const attr in diff.removeAttr) { el.removeAttribute(attr); }
      for (const attr in diff.setAttr) { el.setAttribute(attr, diff.setAttr[attr]); }
      for (const event in diff.removeListeners) {
        el.removeEventListener(event, diff.removeListeners[event]);
      }
      for (const event in diff.addListeners) {
        let msg = diff.addListeners[event];
        el.addEventListener(event, () => enqueue(msg));
      }
      if (diff.children.length < el.childNodes.length) {
        throw new Error("unmatched children lengths");
      }
      apply(el, enqueue, diff.children);
    }
    >>
    [for ... in] over the array [diff.removeAttr] runs through its
    indices ["0"], ["1"], ... *)
Definition modifyAttrs (diff : ContentsDiff) (el : Node) : M Node :=
  el <- forEach (fun el attr => lift (removeAttribute attr el))
                (map index_name (seq 0 (List.length (removeAttr diff)))) el ;;
  el <- forEach (fun el attr => lift (setAttribute attr (get attr (setAttr diff)) el))
                (keys (setAttr diff)) el ;;
  el <- forEach (fun el event =>
                   lift (removeEventListener event (get event (removeListeners diff)) el))
                (keys (removeListeners diff)) el ;;
  forEach (fun el event =>
             let msg := get event (addListeners diff) in
             cb <- newArrow msg ;; ret (addEventListener event cb el))
          (keys (addListeners diff)) el.

Definition modifyWith (el : Node) (diff : ContentsDiff) : M Node :=
  el <- modifyAttrs diff el ;;
  if (List.length (children diff) <? List.length (childNodes el))%nat
  then throw UnmatchedChildren
  else applyLoop (children diff) (el, 0).
End Apply.

(** The body of the loop of [apply].  The live node at the cursor is
    [el.childNodes[k]]; a node mutated in place is written back at its
    position.  [k] is decremented and then incremented on a removal, so
    it stays.  Reading a property of [el.childNodes[k]] when there is no
    such child throws a [TypeError]; every [ElementDiff] is one of the
    five options, so the final [throw] of the source has no case here. *)
Fixpoint applyStep (diff : ElementDiff) (st : Node * nat) : M (Node * nat) :=
  let '(el, k) := st in
  match diff with
  | Remove =>
      match nth_error (childNodes el) k with
      | None => throw TypeError
      | Some _ => ret (withChildNodes (removeAt k (childNodes el)) el, k)
      end
  | Modify d =>
      match nth_error (childNodes el) k with
      | None => throw TypeError
      | Some child =>
          bind (modifyWith applyStep child d)
               (fun child' =>
                  ret (withChildNodes (replaceAt k child' (childNodes el)) el, S k))
      end
  | Create spec =>
      if (k <? List.length (childNodes el))%nat
      then throw (AddingInTheMiddle k (List.length (childNodes el)))
      else bind (create spec)
                (fun child => bind (lift (appendChild child el))
                                   (fun el' => ret (el', S k)))
  | Replace spec =>
      bind (create spec)
           (fun child =>
              match nth_error (childNodes el) k with
              | None => throw TypeError
              | Some _ => ret (withChildNodes (replaceAt k child (childNodes el)) el, S k)
              end)
  | Noop => ret (el, S k)
  end.

(** [modify(el, enqueue, diff)] *)
Definition modify (el : Node) (diff : ContentsDiff) : M Node :=
  modifyWith applyStep el diff.

(** [apply(el, enqueue, childrenDiff)] *)
Definition apply (el : Node) (childrenDiff : list ElementDiff) : M Node :=
  applyLoop applyStep childrenDiff (el, 0).

(* ================================================================= *)
(** ** The message loop of [init] *)

Section Loop.
(** The caller's application state and its two functions.  A call
    [update(state, msg, enqueue)] is modelled by the state it returns
    and the messages it handed to [enqueue] while it ran, in order. *)
Variable State : Type.
Variable update : State -> value -> State * list value.
Variable view : State -> list Spec.

(** The variables [init] closes over, the live tree under [root], and
    the number of the next closure. *)
Record Loop : Type := mkLoop {
  state : State;
  spec : list Spec;
  queue : list value;
  root : Node;
  nextRef : nat
}.

(** What a tick calls, in order. *)
Inductive call : Type :=
| CallUpdate (s : State) (msg : value)
| CallView (s : State)
| CallApply (diffs : list ElementDiff).

(** [function enqueue(msg) { queue.push(msg); }] *)
Definition enqueue (msg : value) (L : Loop) : Loop :=
  mkLoop (state L) (spec L) (queue L ++ [msg]) (root L) (nextRef L).

(** <<
    function draw() {
      let newSpec = view(state);
      apply(root, enqueue, diffList(spec, newSpec));
      spec = newSpec;
    }
    >> *)
Definition draw (L : Loop) : list call * result Loop :=
  let newSpec := view (state L) in
  match diffList (spec L) newSpec with
  | Err e => ([CallView (state L)], Err e)
  | OK diffs =>
      ([CallView (state L); CallApply diffs],
       match apply (root L) diffs (nextRef L) with
       | Err e => Err e
       | OK (root', n') => OK (mkLoop (state L) newSpec (queue L) root' n')
       end)
  end.

(** [msg => { state = update(state, msg, enqueue); }] *)
Definition runUpdate (acc : list call * Loop) (msg : value) : list call * Loop :=
  let '(calls, L) := acc in
  let '(state', sent) := update (state L) msg in
  (calls ++ [CallUpdate (state L) msg],
   fold_left (fun L m => enqueue m L) sent
             (mkLoop state' (spec L) (queue L) (root L) (nextRef L))).

(** <<
    function updateState() {
      if (queue.length > 0) {
        let msgs = queue;
        queue = [];
        msgs.forEach(msg => { state = update(state, msg, enqueue); });
        draw();
      }
      window.requestAnimationFrame(updateState);
    }
    >>
    One run of the function: the calls it makes, and the loop it leaves
    behind, or the exception that ends it. *)
Definition updateState (L : Loop) : list call * result Loop :=
  if (0 <? List.length (queue L))%nat then
    let msgs := queue L in
    let L0 := mkLoop (state L) (spec L) [] (root L) (nextRef L) in
    let '(calls, L1) := fold_left runUpdate msgs ([], L0) in
    let '(calls', r) := draw L1 in
    (calls ++ calls', r)
  else ([], OK L).

(** The start of [init]: the three variables, then the first [draw()]. *)
Definition init (rootNode : Node) (initialState : State) : list call * result Loop :=
  draw (mkLoop initialState [] [] rootNode 0).
End Loop.
Arguments CallApply {State} diffs.

(* ================================================================= *)
(** ** Vocabulary of the statements *)

(** Induction on a spec with the hypothesis for every child. *)
Section SpecInduction.
Variable P : Spec -> Prop.
Hypothesis HElement : forall tag attributes children,
    Forall P children -> P (Element tag attributes children).
Hypothesis HText : forall textContent, P (Text textContent).
Hypothesis HEmpty : P Empty.

Fixpoint Spec_nested_ind (s : Spec) : P s :=
  match s with
  | Element tag attributes children =>
      HElement tag attributes
        ((fix all (l : list Spec) : Forall P l :=
            match l with
            | [] => Forall_nil P
            | x :: l' => Forall_cons x (Spec_nested_ind x) (all l')
            end) children)
  | Text textContent => HText textContent
  | Empty => HEmpty
  end.
End SpecInduction.

(** [padded xs ys]: [ys] is [xs] with [Empty] nodes put in at any
    positions. *)
Inductive padded : list Spec -> list Spec -> Prop :=
| padded_nil : padded [] []
| padded_keep (x : Spec) (xs ys : list Spec) :
    padded xs ys -> padded (x :: xs) (x :: ys)
| padded_empty (xs ys : list Spec) :
    padded xs ys -> padded xs (Empty :: ys).

(** The header of the source types the attributes as strings and the
    listeners as messages: a value under a name that is not an event
    name is a string. *)
Definition is_string (v : value) : bool :=
  match v with
  | VStr _ => true
  | _ => false
  end.

Definition typed_attr (kv : string * value) : bool :=
  match eventName (fst kv) with
  | Some _ => true
  | None => is_string (snd kv)
  end.

Fixpoint well_typed (s : Spec) : bool :=
  match s with
  | Element _ attributes children =>
      (forallb typed_attr attributes && forallb well_typed children)%bool
  | Text _ => true
  | Empty => true
  end.

Section Forall2b.
Variables (A B : Type) (p : A -> B -> bool).
Fixpoint forall2b (la : list A) (lb : list B) : bool :=
  match la, lb with
  | [], [] => true
  | a :: la', b :: lb' => (p a b && forall2b la' lb')%bool
  | _, _ => false
  end.
End Forall2b.

(** Two values of structurally equal trees: equal strings, or two
    objects, which may be two instances (what is inside an object is
    not part of the model). *)
Definition same_value (a b : value) : bool :=
  match a, b with
  | VUndef, VUndef => true
  | VStr s, VStr t => String.eqb s t
  | VObj _, VObj _ => true
  | _, _ => false
  end.

Definition same_attr (x y : string * value) : bool :=
  (String.eqb (fst x) (fst y) && same_value (snd x) (snd y))%bool.

(** [struct_eq a b]: [b] is a structurally equal instance of [a]. *)
Fixpoint struct_eq (a b : Spec) : bool :=
  match a, b with
  | Element t attrs cs, Element t' attrs' cs' =>
      (String.eqb t t' && forall2b same_attr attrs attrs'
       && forall2b struct_eq cs cs')%bool
  | Text s, Text s' => String.eqb s s'
  | Empty, Empty => true
  | _, _ => false
  end.

(** A script that changes nothing: [Noop], or a [Modify] with nothing to
    remove, set, unbind or bind and only [Noop] for the children. *)
Definition inert (d : ElementDiff) : Prop :=
  d = Noop
  \/ exists c, d = Modify c
               /\ removeAttr c = [] /\ setAttr c = []
               /\ removeListeners c = [] /\ addListeners c = []
               /\ Forall (fun e => e = Noop) (children c).

Section LoopVocabulary.
Variable State : Type.
Variable update : State -> value -> State * list value.

(** [update] folded over the messages in arrival order. *)
Definition foldUpdate (s : State) (msgs : list value) : State :=
  fold_left (fun s msg => fst (update s msg)) msgs s.

(** The messages these calls of [update] hand to [enqueue]. *)
Fixpoint sentBy (s : State) (msgs : list value) : list value :=
  match msgs with
  | [] => []
  | msg :: rest => snd (update s msg) ++ sentBy (fst (update s msg)) rest
  end.

(** The calls of [update] for these messages. *)
Fixpoint updateCalls (s : State) (msgs : list value) : list (call State) :=
  match msgs with
  | [] => []
  | msg :: rest => CallUpdate s msg :: updateCalls (fst (update s msg)) rest
  end.

(** The messages that a list of calls passes to [update]. *)
Definition updated (calls : list (call State)) : list value :=
  flat_map (fun c => match c with
                     | CallUpdate _ msg => [msg]
                     | _ => []
                     end) calls.

(** The number of [view] calls, one per [draw]. *)
Definition draws (calls : list (call State)) : nat :=
  List.length (filter (fun c => match c with
                                | CallView _ => true
                                | _ => false
                                end) calls).
End LoopVocabulary.

(** A small caller, to run the loop on: the state is a counter, the
    message "inc" adds one, and "twice" doubles the counter and enqueues
    an "inc". *)
Module Counter.
Definition update (s : nat) (msg : value) : nat * list value :=
  match msg with
  | VStr "inc" => (s + 1, [])
  | VStr "twice" => (2 * s, [VStr "inc"])
  | _ => (s, [])
  end.

Definition view (s : nat) : list Spec :=
  [Element "button" [("onclick", VStr "inc")] [Text (index_name s)]].

Definition mounted : Loop nat :=
  mkLoop 1 [] [VStr "inc"; VStr "twice"] (ElementNode "main" [] [] []) 0.
End Counter.

(** A spec with no [Empty] node in it, at the root or below. *)
Fixpoint clean (s : Spec) : bool :=
  match s with
  | Element _ _ cs => forallb clean cs
  | Text _ => true
  | Empty => false
  end.

(** [shape s el]: the live node [el] has the tags, the texts and the
    child structure of the spec [s]. *)
Fixpoint shape (s : Spec) (el : Node) : bool :=
  match s, el with
  | Text t, TextNode d _ => String.eqb t d
  | Element t _ cs, ElementNode t' _ _ kids =>
      (String.eqb t t' && forall2b shape cs kids)%bool
  | _, _ => false
  end.

(** No value of the dictionary is a string. *)
Definition no_string_values (o : dict value) : bool :=
  forallb (fun kv => negb (is_string (snd kv))) o.

(** The message under an event name is an object (or [undefined]), not
    a string. *)
Definition handler_ok (kv : string * value) : bool :=
  match eventName (fst kv) with
  | Some _ => negb (is_string (snd kv))
  | None => true
  end.

(** A spec in which every message is an object, at the root and
    below. *)
Fixpoint object_handlers (s : Spec) : bool :=
  match s with
  | Element _ attributes cs =>
      (forallb handler_ok attributes && forallb object_handlers cs)%bool
  | Text _ => true
  | Empty => true
  end.

(** A name that is in lower case already. *)
Definition lower_name (k : string) : bool := String.eqb (toLowerCase k) k.

(** The names that [create] sets as attributes are in lower case. *)
Definition plain_names_lower (ks : list string) : bool :=
  forallb (fun k => (truthy (eventName k) || lower_name k)%bool) ks.

(** A script that nowhere creates, or replaces by, an [Empty] node. *)
Fixpoint no_empty_script (d : ElementDiff) : bool :=
  match d with
  | Replace r => negb (is_empty r)
  | Create r => negb (is_empty r)
  | Modify c => forallb no_empty_script (children c)
  | Remove => true
  | Noop => true
  end.

Definition is_null (event : option string) : bool :=
  match event with
  | None => true
  | Some _ => false
  end.

(** The listeners are arrow functions allocated before [n]: what
    [create] and [modify] leave on a node when the next object is
    number [n]. *)
Definition arrows_below (n : nat) (ls : list listener) : bool :=
  forallb (fun l => match l_callback l with
                    | Arrow ref _ => (ref <? n)%nat
                    | Foreign _ => false
                    end) ls.

(** The messages that the listeners which [create] binds for the
    attributes named [ks] deliver on an event of [type]. *)
Definition boundMessages (attributes : dict value) (ks : list string)
           (type : string) : list value :=
  flat_map (fun k => match eventName k with
                     | Some ev =>
                         if (String.eqb ev type && negb (String.eqb ev ""))%bool
                         then [get k attributes] else []
                     | None => []
                     end) ks.

(** The statement for one position: the diff of [l] against [r],
    applied where the live node of [l] is, leaves a live node of [r]
    there and moves the cursor on. *)
Definition syncs_at (l : Spec) : Prop :=
  forall r child,
    clean l = true -> object_handlers l = true -> clean r = true ->
    shape l child = true ->
    exists d,
      diffOne l r = OK d
      /\ forall t a ls pre post n,
         exists child' n',
           applyStep d (ElementNode t a ls (pre ++ child :: post), List.length pre) n
           = OK ((ElementNode t a ls (pre ++ child' :: post), S (List.length pre)), n')
           /\ shape r child' = true.

(** A second small caller, whose messages are objects: object 0 adds
    one to the counter, any other message resets it. *)
Module Clicker.
Definition update (s : nat) (msg : value) : nat * list value :=
  match msg with
  | VObj 0 => (s + 1, [])
  | _ => (0, [])
  end.

Definition view (s : nat) : list Spec :=
  [Element "button" [("class", VStr (index_name s)); ("onclick", VObj s)]
           [Text (index_name s)]].
End Clicker.

(** The live children of the root are those of the current spec. *)
Definition in_sync {State : Type} (L : Loop State) : bool :=
  match root L with
  | ElementNode _ _ _ kids => forall2b shape (spec L) kids
  | TextNode _ _ => false
  end.

Unset Implicit Arguments.

(* ================================================================= *)
(** * Properties *)

(* ----------------------------------------------------------------- *)
(** ** Event names *)

Lemma indexOf_from_eq (needle s : string) (k : nat) :
  indexOf_from needle s k =
  if String.prefix needle s then Z.of_nat k
  else match s with
       | EmptyString => (-1)%Z
       | String _ s' => indexOf_from needle s' (S k)
       end.
Proof. destruct s; reflexivity. Qed.

Lemma indexOf_from_range (needle s : string) (k : nat) :
  indexOf_from needle s k = (-1)%Z \/ (Z.of_nat k <= indexOf_from needle s k)%Z.
Proof.
  revert k. induction s as [| c s IH]; intro k; rewrite indexOf_from_eq.
  - destruct (String.prefix needle ""); [right; lia | now left].
  - destruct (String.prefix needle (String c s)); [right; lia |].
    destruct (IH (S k)) as [H | H]; [now left | right; lia].
Qed.

(** [str.indexOf(needle) == 0] is the test "[str] starts with
    [needle]". *)
Lemma indexOf_zero_prefix (s needle : string) :
  (indexOf s needle =? 0)%Z = String.prefix needle s.
Proof.
  unfold indexOf. rewrite indexOf_from_eq.
  destruct (String.prefix needle s); [reflexivity |].
  destruct s as [| c s]; [reflexivity |].
  destruct (indexOf_from_range needle s 1) as [H | H].
  - now rewrite H.
  - apply Z.eqb_neq. lia.
Qed.

Lemma eventName_prefix (str : string) :
  eventName str =
  if String.prefix "on" str then Some (toLowerCase (slice 2 str)) else None.
Proof. unfold eventName. now rewrite indexOf_zero_prefix. Qed.

Lemma prefix_cons (a b : ascii) (p s : string) :
  String.prefix (String a p) (String b s) =
  if Ascii.ascii_dec a b then String.prefix p s else false.
Proof. reflexivity. Qed.

Lemma prefix_append (p s : string) : String.prefix p (p ++ s)%string = true.
Proof.
  induction p as [| c p IH].
  - now destruct s.
  - change (String c p ++ s)%string with (String c (p ++ s)%string).
    rewrite prefix_cons.
    destruct (Ascii.ascii_dec c c); [exact IH | congruence].
Qed.

Lemma prefix_on_inv (str : string) :
  String.prefix "on" str = true -> str = ("on" ++ slice 2 str)%string.
Proof.
  destruct str as [| a [| b rest]]; try discriminate.
  - rewrite prefix_cons. destruct (Ascii.ascii_dec "o" a); discriminate.
  - rewrite !prefix_cons.
    destruct (Ascii.ascii_dec "o" a) as [Ha |]; [| discriminate].
    destruct (Ascii.ascii_dec "n" b) as [Hb |]; [| discriminate].
    intros _. now rewrite <- Ha, <- Hb.
Qed.

(** A name is an event name exactly when it starts with "on"; the event
    is the rest of the name in lower case. *)
Lemma eventName_spec (str event : string) :
  eventName str = Some event <->
  exists rest, str = ("on" ++ rest)%string /\ event = toLowerCase rest.
Proof.
  rewrite eventName_prefix. split.
  - destruct (String.prefix "on" str) eqn:P; [| discriminate].
    intros [= <-]. exists (slice 2 str). split; [now apply prefix_on_inv | reflexivity].
  - intros (rest & -> & ->).
    now rewrite prefix_append.
Qed.

Lemma eventName_null (str : string) :
  eventName str = None <-> String.prefix "on" str = false.
Proof.
  rewrite eventName_prefix.
  destruct (String.prefix "on" str); split; congruence.
Qed.

Example eventName_online : eventName "online" = Some "line".
Proof. reflexivity. Qed.

Example eventName_onClick : eventName "onClick" = Some "click".
Proof. reflexivity. Qed.

Example eventName_id : eventName "id" = None.
Proof. reflexivity. Qed.

(** [create] and the differ read the result of [eventName] the same way
    unless the event name is empty. *)
Lemma truthy_not_null (str : string) :
  eventName str <> Some "" ->
  truthy (eventName str) = match eventName str with Some _ => true | None => false end.
Proof.
  destruct (eventName str) as [e |]; [| reflexivity].
  simpl. destruct (String.eqb_spec e ""); [congruence | reflexivity].
Qed.

(** C10, at the attribute named "on".  [eventName] answers with the
    empty event name, which is not [null]: the differ files the name
    under the listeners, while [create], which tests [event ? :], sets
    it as a string attribute and binds nothing.  For "online" both bind
    the event "line". *)
Theorem on_attribute_create_vs_diff :
  eventName "on" = Some ""
  /\ create (Element "div" [("on", VStr "x")] []) 0
     = OK (ElementNode "div" [("on", "x")] [] [], 0)
  /\ attrDelta [("on", VStr "x")] []
     = mkDelta [] [] [("", VStr "x")] []
  /\ create (Element "div" [("online", VStr "x")] []) 0
     = OK (ElementNode "div" [] [mkListener "line" (Arrow 0 (VStr "x"))] [], 1)
  /\ attrDelta [("online", VStr "x")] []
     = mkDelta [] [] [("line", VStr "x")] [].
Proof. repeat split; reflexivity. Qed.

(* ----------------------------------------------------------------- *)
(** ** Listener rebinding *)

(** The delta that [diffOne] computes for [onclick: f] against
    [onclick: g]. *)
Lemma attrDelta_rebinding (f g : value) :
  strict_eq g f = false -> is_undefined g = false ->
  attrDelta [("onclick", f)] [("onclick", g)]
  = mkDelta [] [] [("click", f)] [("click", g)].
Proof.
  intros Hne Hdef. unfold attrDelta. simpl.
  unfold removedStep, changedStep, get. simpl.
  rewrite Hdef, Hne. reflexivity.
Qed.

(** C1: the result for [onclick: f] against [onclick: g] on an element
    without other attributes and without children is [Noop], whatever
    [f] and [g] are: [noAttributeChange] looks at [removeAttr] and
    [setAttr] only, so the listener delta is dropped. *)
Theorem diffOne_rebinding_is_noop (tag : string) (f g : value) :
  diffOne (Element tag [("onclick", f)] []) (Element tag [("onclick", g)] [])
  = OK Noop.
Proof.
  simpl. rewrite String.eqb_refl. simpl.
  unfold attrDelta. simpl. unfold removedStep, changedStep, get. simpl.
  destruct (is_undefined g), (strict_eq g f); reflexivity.
Qed.

(** C2: a button created with [onclick: f], patched with the diff
    against [onclick: g] (the [class] changes too, so that the diff is a
    [Modify]).  [removeEventListener] is given the message [f], not the
    arrow function that [create] registered, and removes nothing: two
    listeners are bound for "click" afterwards and a click enqueues both
    messages. *)
Theorem modify_keeps_old_listener :
  let f := VObj 1 in
  let g := VObj 2 in
  let l := Element "button" [("onclick", f); ("class", VStr "a")] [] in
  let r := Element "button" [("onclick", g); ("class", VStr "b")] [] in
  let el := ElementNode "button" [("class", "a")]
                        [mkListener "click" (Arrow 0 f)] [] in
  let d := mkContentsDiff [] [("class", VStr "b")]
                          [("click", f)] [("click", g)] [] in
  let el' := ElementNode "button" [("class", "b")]
                         [mkListener "click" (Arrow 0 f);
                          mkListener "click" (Arrow 1 g)] [] in
  create l 0 = OK (el, 1)
  /\ dispatch "click" el = [f]
  /\ diffOne l r = OK (Modify d)
  /\ modify el d 1 = OK (el', 2)
  /\ List.length (boundFor "click" el') = 2
  /\ dispatch "click" el' = [f; g].
Proof. cbv zeta. repeat split; reflexivity. Qed.

(* ----------------------------------------------------------------- *)
(** ** Creation and [Empty] children *)

(** C3: with an [Empty] child in front of a text child, the loop of
    [create] runs over the one index of the filtered list but reads
    [spec.children[0]], the [Empty] node itself, and throws; creating
    the filtered list gives the one text node. *)
Theorem create_reads_unfiltered_children :
  create (Element "div" [] [Empty; Text "a"]) 0 = Err TypeError
  /\ create (Element "div" [] (removeEmpty [Empty; Text "a"])) 0
     = OK (ElementNode "div" [] [] [TextNode "a" []], 0).
Proof. split; reflexivity. Qed.

(* ----------------------------------------------------------------- *)
(** ** Attribute edits *)

(** C4: [for (const attr in diff.removeAttr)] runs through the indices
    of the array, so [modify] calls [removeAttribute("0")] and the
    attribute "id" stays. *)
Theorem modify_does_not_remove_attr :
  modify (ElementNode "div" [("id", "x")] [] [])
         (mkContentsDiff ["id"] [("class", VStr "y")] [] [] []) 0
  = OK (ElementNode "div" [("id", "x"); ("class", "y")] [] [], 0).
Proof. reflexivity. Qed.

(* ----------------------------------------------------------------- *)
(** ** The loop of [diffList] *)

Lemma pushEach_ext {A} (f g : nat -> result A) (idx : list nat) :
  (forall i, In i idx -> f i = g i) -> pushEach f idx = pushEach g idx.
Proof.
  induction idx as [| i idx IH]; intro H; simpl; [reflexivity |].
  rewrite (H i) by now left.
  rewrite IH; [reflexivity |]. intros j Hj. apply H. now right.
Qed.

Lemma pushEach_map {A} (f : nat -> result A) (h : nat -> nat) (idx : list nat) :
  pushEach f (map h idx) = pushEach (fun i => f (h i)) idx.
Proof.
  induction idx as [| i idx IH]; simpl; [reflexivity | now rewrite IH].
Qed.

(** Dropping the heads of both lists shifts the loop by one index. *)
Lemma pushEach_shift (ls rs ls' rs' : list Spec) (n : nat) :
  (forall i, diffAt ls rs (S i) = diffAt ls' rs' i) ->
  pushEach (diffAt ls rs) (seq 1 n) = pushEach (diffAt ls' rs') (seq 0 n).
Proof.
  intro H. rewrite <- seq_shift, pushEach_map.
  apply pushEach_ext. intros i _. apply H.
Qed.

Lemma diffLoop_creates (rs : list Spec) :
  pushEach (diffAt [] rs) (seq 0 (List.length rs)) = OK (map Create rs).
Proof.
  induction rs as [| r rs IH]; [reflexivity |].
  cbn [List.length seq pushEach map].
  rewrite (pushEach_shift [] (r :: rs) [] rs), IH; [reflexivity |].
  intro i. unfold diffAt. now destruct i.
Qed.

(** The walk inside [diffOne] is the indexed loop of [diffList] on the
    filtered left list. *)
Lemma diffWalk_loop (ls_raw rs : list Spec) :
  diffWalk diffOne ls_raw rs =
  pushEach (diffAt (removeEmpty ls_raw) rs)
           (seq 0 (Nat.max (List.length (removeEmpty ls_raw)) (List.length rs))).
Proof.
  revert rs. induction ls_raw as [| l ls IH]; intro rs.
  - cbn [diffWalk removeEmpty filter List.length Nat.max].
    now rewrite diffLoop_creates.
  - cbn [diffWalk removeEmpty filter].
    destruct (is_empty l) eqn:El; cbn [negb]; [apply IH |].
    fold (removeEmpty ls). destruct rs as [| r rs].
    + rewrite IH. cbn [List.length]. rewrite !Nat.max_0_r.
      cbn [seq pushEach]. unfold diffAt at 1. cbn [nth_error rbind].
      rewrite (pushEach_shift (l :: removeEmpty ls) [] (removeEmpty ls) []);
        [reflexivity |].
      intro i. unfold diffAt. cbn [nth_error]. now destruct i.
    + rewrite IH. cbn [List.length]. rewrite <- Nat.succ_max_distr.
      cbn [seq pushEach]. unfold diffAt at 2. cbn [nth_error].
      rewrite (pushEach_shift (l :: removeEmpty ls) (r :: rs) (removeEmpty ls) rs);
        [reflexivity |].
      intro i. reflexivity.
Qed.

(** The recursive call in [diffOne] is [diffList(l.children, r.children)]. *)
Lemma diffList_unfold (ls_raw rs_raw : list Spec) :
  diffWalk diffOne ls_raw (removeEmpty rs_raw) = diffList ls_raw rs_raw.
Proof. apply diffWalk_loop. Qed.

(** [diffOne] on two elements, as the source has it. *)
Lemma diffOne_Element (ltag rtag : string) (lattrs rattrs : dict value)
      (lchildren rchildren : list Spec) :
  diffOne (Element ltag lattrs lchildren) (Element rtag rattrs rchildren) =
  if negb (String.eqb ltag rtag) then OK (Replace (Element rtag rattrs rchildren))
  else rbind (diffList lchildren rchildren)
             (fun children => OK (finishDiff (attrDelta lattrs rattrs) children)).
Proof. cbn [diffOne]. now rewrite diffList_unfold. Qed.

(** [diffList] only looks at the filtered lists. *)
Lemma diffList_removeEmpty (ls rs ls' rs' : list Spec) :
  removeEmpty ls' = removeEmpty ls -> removeEmpty rs' = removeEmpty rs ->
  diffList ls' rs' = diffList ls rs.
Proof. unfold diffList. now intros -> ->. Qed.

(* ----------------------------------------------------------------- *)
(** ** [Empty] is transparent to [diffList] *)

Lemma padded_refl (xs : list Spec) : padded xs xs.
Proof. induction xs; constructor; assumption. Qed.

Lemma padded_removeEmpty (xs ys : list Spec) :
  padded xs ys -> removeEmpty ys = removeEmpty xs.
Proof.
  induction 1 as [| x xs ys _ IH | xs ys _ IH]; [reflexivity | | exact IH].
  unfold removeEmpty in *. cbn [filter]. now rewrite IH.
Qed.

(** C7: [diffList([Empty, A, Empty, B], [A, B])] is
    [diffList([A, B], [A, B])], and putting [Empty] nodes anywhere into
    either argument of [diffList] leaves its result as it is. *)
Theorem diffList_empty_transparent (A B : Spec) (ls ls' rs rs' : list Spec) :
  padded ls ls' -> padded rs rs' ->
  diffList [Empty; A; Empty; B] [A; B] = diffList [A; B] [A; B]
  /\ diffList ls' rs' = diffList ls rs.
Proof.
  intros Hl Hr. split.
  - apply diffList_removeEmpty; [| reflexivity].
    apply padded_removeEmpty. repeat constructor.
  - apply diffList_removeEmpty; now apply padded_removeEmpty.
Qed.

Lemma diffList_empty_transparent_witness :
  let A := Element "p" [("id", VStr "x")] [Text "a"] in
  let B := Text "b" in
  (padded [A; B] [Empty; A; Empty; B] /\ padded [B; A] [B; Empty; A; Empty])
  /\ diffList [Empty; A; Empty; B] [A; B] = diffList [A; B] [A; B]
  /\ diffList [Empty; A; Empty; B] [B; Empty; A; Empty] = diffList [A; B] [B; A].
Proof.
  cbv zeta.
  assert (Hl : padded [Element "p" [("id", VStr "x")] [Text "a"]; Text "b"]
                      [Empty; Element "p" [("id", VStr "x")] [Text "a"]; Empty; Text "b"])
    by (repeat constructor).
  assert (Hr : padded [Text "b"; Element "p" [("id", VStr "x")] [Text "a"]]
                      [Text "b"; Empty; Element "p" [("id", VStr "x")] [Text "a"]; Empty])
    by (repeat constructor).
  split; [split; assumption |].
  exact (diffList_empty_transparent
           (Element "p" [("id", VStr "x")] [Text "a"]) (Text "b") _ _ _ _ Hl Hr).
Defined.

(* ----------------------------------------------------------------- *)
(** ** Induction on specs, and [diffOne] returns *)

Lemma diffWalk_total (ls rs : list Spec) :
  Forall (fun l => forall r, is_empty l = false -> exists d, diffOne l r = OK d) ls ->
  exists ds, diffWalk diffOne ls rs = OK ds.
Proof.
  intro H. revert rs. induction H as [| l ls Hl _ IH]; intro rs.
  - now exists (map Create rs).
  - cbn [diffWalk]. destruct (is_empty l) eqn:El; [apply IH |].
    destruct rs as [| r rs].
    + destruct (IH []) as [ds ->]. now exists (Remove :: ds).
    + destruct (Hl r eq_refl) as [d ->]. destruct (IH rs) as [ds ->].
      now exists (d :: ds).
Qed.

(** [diffOne] throws only when its left argument is [Empty], which
    [diffList] never passes. *)
Lemma diffOne_total (l r : Spec) :
  is_empty l = false -> exists d, diffOne l r = OK d.
Proof.
  revert r. induction l as [ltag lattrs lchildren IH | lt |] using Spec_nested_ind;
    intros r Hl; [| | discriminate].
  - destruct r as [rtag rattrs rchildren | rt |]; try (now eexists).
    cbn [diffOne]. destruct (negb (String.eqb ltag rtag)); [now eexists |].
    destruct (diffWalk_total _ (removeEmpty rchildren) IH) as [ds ->].
    now eexists.
  - destruct r as [rtag rattrs rchildren | rt |]; cbn [diffOne];
      try (now eexists).
    destruct (negb (String.eqb lt rt)); now eexists.
Qed.

Lemma removeEmpty_not_empty (els : list Spec) (e : Spec) :
  In e (removeEmpty els) -> is_empty e = false.
Proof.
  unfold removeEmpty. rewrite filter_In. intros [_ H].
  now apply negb_true_iff in H.
Qed.

Lemma pushEach_total {A} (f : nat -> result A) (idx : list nat) :
  (forall i, In i idx -> exists d, f i = OK d) ->
  exists ds, pushEach f idx = OK ds.
Proof.
  induction idx as [| i idx IH]; intro H; [now exists [] |].
  destruct (H i (or_introl eq_refl)) as [d Hd].
  destruct IH as [ds Hds]; [intros j Hj; apply H; now right |].
  exists (d :: ds). cbn [pushEach]. now rewrite Hd, Hds.
Qed.

Lemma pushEach_seq_nth {A} (f : nat -> result A) (a n : nat) (ds : list A) :
  pushEach f (seq a n) = OK ds ->
  List.length ds = n
  /\ forall i, i < n -> exists d, f (a + i) = OK d /\ nth_error ds i = Some d.
Proof.
  revert a ds. induction n as [| n IH]; intros a ds; cbn [seq pushEach].
  - intros [= <-]. split; [reflexivity | intros i Hi; lia].
  - destruct (f a) as [d |] eqn:Fa; [| discriminate]. cbn [rbind].
    destruct (pushEach f (seq (S a) n)) as [ds' |] eqn:Rest; [| discriminate].
    intros [= <-]. destruct (IH _ _ Rest) as [Hlen Hnth].
    split; [cbn; now rewrite Hlen |].
    intros [| i] Hi.
    + exists d. now rewrite Nat.add_0_r.
    + destruct (Hnth i ltac:(lia)) as (d' & Hf & Hd').
      exists d'. rewrite Nat.add_succ_r. now split.
Qed.

Lemma diffList_total (ls_raw rs_raw : list Spec) :
  exists ds, diffList ls_raw rs_raw = OK ds.
Proof.
  unfold diffList. apply pushEach_total. intros i _. unfold diffAt.
  destruct (nth_error (removeEmpty ls_raw) i) as [l |] eqn:Hl; [| now eexists].
  destruct (nth_error (removeEmpty rs_raw) i) as [r |]; [| now eexists].
  apply diffOne_total. apply nth_error_In in Hl.
  now apply removeEmpty_not_empty in Hl.
Qed.

(** What [diffList] puts at each position. *)
Lemma diffList_nth (prev next : list Spec) :
  let ls := removeEmpty prev in
  let rs := removeEmpty next in
  exists ds,
    diffList prev next = OK ds
    /\ List.length ds = Nat.max (List.length ls) (List.length rs)
    /\ forall i, i < Nat.max (List.length ls) (List.length rs) ->
         (List.length ls <= i ->
            exists r, nth_error rs i = Some r
                      /\ nth_error ds i = Some (Create r))
         /\ (i < List.length ls -> List.length rs <= i ->
               nth_error ds i = Some Remove)
         /\ (i < List.length ls -> i < List.length rs ->
               exists l r d, nth_error ls i = Some l
                             /\ nth_error rs i = Some r
                             /\ diffOne l r = OK d
                             /\ nth_error ds i = Some d).
Proof.
  cbv zeta. destruct (diffList_total prev next) as [ds Hds]. exists ds.
  split; [exact Hds |]. unfold diffList in Hds.
  destruct (pushEach_seq_nth _ _ _ _ Hds) as [Hlen Hnth].
  split; [exact Hlen |]. intros i Hi.
  destruct (Hnth i Hi) as (d & Hd & Hi'). cbn [Nat.add] in Hd.
  unfold diffAt in Hd. repeat split.
  - intro Hge. assert (Hr : i < List.length (removeEmpty next)) by lia.
    apply nth_error_None in Hge. rewrite Hge in Hd. injection Hd as <-.
    destruct (nth_error (removeEmpty next) i) as [r |] eqn:Er.
    + exists r. split; [reflexivity |].
      now rewrite (nth_error_nth _ _ Empty Er) in Hi'.
    + apply nth_error_None in Er. lia.
  - intros Hl Hge.
    destruct (nth_error (removeEmpty prev) i) as [l |] eqn:El;
      [| apply nth_error_None in El; lia].
    apply nth_error_None in Hge. rewrite Hge in Hd. now injection Hd as <-.
  - intros Hl Hr.
    destruct (nth_error (removeEmpty prev) i) as [l |] eqn:El;
      [| apply nth_error_None in El; lia].
    destruct (nth_error (removeEmpty next) i) as [r |] eqn:Er;
      [| apply nth_error_None in Er; lia].
    now exists l, r, d.
Qed.

(* ----------------------------------------------------------------- *)
(** ** Diffing a tree against a structurally equal instance *)

Lemma fold_left_invariant {A B} (Inv : A -> Prop) (step : A -> B -> A)
      (xs : list B) (init : A) :
  (forall acc x, In x xs -> Inv acc -> Inv (step acc x)) ->
  Inv init -> Inv (fold_left step xs init).
Proof.
  revert init. induction xs as [| x xs IH]; intros init Hstep Hinit; [exact Hinit |].
  cbn [fold_left]. apply IH.
  - intros acc y Hy. apply Hstep. now right.
  - apply Hstep; [now left | exact Hinit].
Qed.

Lemma same_attrs_keys (a a' : dict value) :
  forall2b same_attr a a' = true -> keys a' = keys a.
Proof.
  revert a'. induction a as [| [k v] a IH]; intros [| [k' v'] a']; cbn;
    try discriminate; [reflexivity |].
  unfold same_attr. cbn [fst snd]. intro H.
  apply andb_prop in H as [H Ha]. apply andb_prop in H as [Hk _].
  apply String.eqb_eq in Hk. subst k'. f_equal. now apply IH.
Qed.

(** Under a name of the left dictionary, both sides hold values that
    correspond, and a string where the name is not an event name. *)
Lemma same_attrs_lookup (a a' : dict value) (k : string) :
  forallb typed_attr a = true -> forall2b same_attr a a' = true ->
  In k (keys a) ->
  exists v v', lookup k a = Some v /\ lookup k a' = Some v'
               /\ same_value v v' = true
               /\ (eventName k = None -> is_string v = true).
Proof.
  revert a'. induction a as [| [k0 v0] a IH]; intros [| [k0' v0'] a']; cbn;
    try discriminate; [intros _ _ [] |].
  unfold same_attr. cbn [fst snd]. intros Ht H Hin.
  apply andb_prop in Ht as [Ht0 Ht]. apply andb_prop in H as [H Ha].
  apply andb_prop in H as [Hk Hv]. apply String.eqb_eq in Hk. subst k0'.
  destruct (String.eqb_spec k k0) as [-> | Hne].
  - exists v0, v0'. repeat split; [exact Hv |].
    intro Hev. unfold typed_attr in Ht0. cbn [fst snd] in Ht0.
    now rewrite Hev in Ht0.
  - destruct Hin as [-> | Hin]; [congruence |]. now apply IH.
Qed.

Lemma same_value_string (v v' : value) :
  same_value v v' = true -> is_string v = true ->
  is_undefined v' = false /\ strict_eq v' v = true.
Proof.
  destruct v, v'; cbn; try discriminate. intros H _.
  apply String.eqb_eq in H. subst. now rewrite String.eqb_refl.
Qed.

(** No attribute is removed or set between two typed dictionaries that
    correspond. *)
Lemma attrDelta_copy (a a' : dict value) :
  forallb typed_attr a = true -> forall2b same_attr a a' = true ->
  d_removeAttr (attrDelta a a') = [] /\ d_setAttr (attrDelta a a') = [].
Proof.
  intros Ht Hs. unfold attrDelta.
  apply (fold_left_invariant (fun acc => d_removeAttr acc = [] /\ d_setAttr acc = [])).
  - intros acc attr Hin Hacc. rewrite (same_attrs_keys _ _ Hs) in Hin.
    destruct (same_attrs_lookup _ _ _ Ht Hs Hin) as (v & v' & Hv & Hv' & Hsame & Hstr).
    unfold changedStep, get. rewrite Hv, Hv'.
    destruct (eventName attr) as [event |].
    + destruct (negb (strict_eq v' v)); exact Hacc.
    + destruct (same_value_string _ _ Hsame (Hstr eq_refl)) as [_ ->]. exact Hacc.
  - apply (fold_left_invariant (fun acc => d_removeAttr acc = [] /\ d_setAttr acc = [])).
    + intros acc attr Hin Hacc.
      destruct (same_attrs_lookup _ _ _ Ht Hs Hin) as (v & v' & Hv & Hv' & Hsame & Hstr).
      unfold removedStep, get. rewrite Hv'.
      destruct (eventName attr) as [event |].
      * destruct (is_undefined v'); exact Hacc.
      * destruct (same_value_string _ _ Hsame (Hstr eq_refl)) as [-> _]. exact Hacc.
    + now split.
Qed.

Lemma finishDiff_noop (d : Delta) (children : list ElementDiff) :
  d_removeAttr d = [] -> d_setAttr d = [] -> forallb is_noop children = true ->
  finishDiff d children = Noop.
Proof. unfold finishDiff. now intros -> -> ->. Qed.

Lemma struct_eq_empty (a b : Spec) :
  struct_eq a b = true -> is_empty b = is_empty a.
Proof. destruct a, b; cbn; congruence. Qed.

Lemma diffWalk_copy (cs cs' : list Spec) :
  Forall (fun T => forall T', well_typed T = true -> struct_eq T T' = true ->
                              is_empty T = false -> diffOne T T' = OK Noop) cs ->
  forallb well_typed cs = true -> forall2b struct_eq cs cs' = true ->
  exists ds, diffWalk diffOne cs (removeEmpty cs') = OK ds
             /\ forallb is_noop ds = true.
Proof.
  intro H. revert cs'. induction H as [| c cs Hc _ IH]; intros [| c' cs']; cbn;
    try discriminate; [now exists [] |].
  intros Ht Hs. apply andb_prop in Ht as [Htc Ht]. apply andb_prop in Hs as [Hsc Hs].
  rewrite (struct_eq_empty _ _ Hsc).
  destruct (IH cs' Ht Hs) as (ds & Hds & Hnoop).
  destruct (is_empty c) eqn:Ec; cbn [negb].
  - now exists ds.
  - rewrite (Hc c' Htc Hsc eq_refl). fold (removeEmpty cs'). rewrite Hds.
    now exists (Noop :: ds).
Qed.

(** The diff of a typed tree against a structurally equal instance is
    [Noop]. *)
Lemma diffOne_copy (T T' : Spec) :
  well_typed T = true -> struct_eq T T' = true -> is_empty T = false ->
  diffOne T T' = OK Noop.
Proof.
  revert T'. induction T as [tag attrs cs IH | s |] using Spec_nested_ind;
    intros [tag' attrs' cs' | s' |]; cbn [struct_eq well_typed is_empty];
    try discriminate.
  - intros Ht Hs _. apply andb_prop in Ht as [Hta Htc].
    apply andb_prop in Hs as [Hs Hsc]. apply andb_prop in Hs as [Htag Hsa].
    cbn [diffOne]. rewrite Htag. cbn [negb].
    destruct (diffWalk_copy _ cs' IH Htc Hsc) as (ds & -> & Hnoop). cbn [rbind].
    destruct (attrDelta_copy _ _ Hta Hsa) as [Hr Hset].
    now rewrite finishDiff_noop.
  - intros _ Hs _. cbn [diffOne]. now rewrite Hs.
Qed.

Lemma same_attrs_refl (attrs : dict value) : forall2b same_attr attrs attrs = true.
Proof.
  induction attrs as [| [k v] attrs IH]; [reflexivity |].
  cbn [forall2b]. rewrite IH. unfold same_attr. cbn [fst snd].
  rewrite String.eqb_refl. destruct v; cbn; try reflexivity.
  now rewrite String.eqb_refl.
Qed.

Lemma struct_eq_refl (T : Spec) : struct_eq T T = true.
Proof.
  induction T as [tag attrs cs IH | s |] using Spec_nested_ind;
    [| apply String.eqb_refl | reflexivity].
  cbn [struct_eq]. rewrite String.eqb_refl, same_attrs_refl. cbn [andb].
  induction IH as [| c cs Hc _ IHc]; [reflexivity |].
  cbn [forall2b]. now rewrite Hc, IHc.
Qed.

(** C5: for a typed spec tree [T] and a structurally equal instance
    [T'], the diff is inert, that is [Noop] at the root or a [Modify]
    with nothing to remove, set, unbind or bind and [Noop] for every
    child: as [diffOne T T'] when [T] is an element or a text, and as
    the one-entry (or, for [Empty], zero-entry) script [diffList [T]
    [T']] that [draw] computes. *)
Theorem diff_copy_inert (T T' : Spec) :
  well_typed T = true -> struct_eq T T' = true ->
  (is_empty T = false -> exists d, diffOne T T' = OK d /\ inert d)
  /\ exists ds, diffList [T] [T'] = OK ds /\ Forall inert ds.
Proof.
  intros Ht Hs. split.
  - intro Hne. exists Noop. split; [now apply diffOne_copy | now left].
  - unfold diffList, removeEmpty. cbn [filter].
    rewrite (struct_eq_empty _ _ Hs). destruct (is_empty T) eqn:Hne; cbn.
    + now exists [].
    + unfold diffAt. cbn. rewrite (diffOne_copy _ _ Ht Hs Hne).
      exists [Noop]. split; [reflexivity |]. constructor; [now left | constructor].
Qed.

Lemma diff_copy_inert_witness :
  let T := Element "div" [("id", VStr "x"); ("onclick", VObj 1)]
                   [Empty; Text "a"; Element "b" [("onkeyup", VStr "up")] []] in
  let T' := Element "div" [("id", VStr "x"); ("onclick", VObj 2)]
                    [Empty; Text "a"; Element "b" [("onkeyup", VStr "up")] []] in
  (well_typed T = true /\ struct_eq T T' = true /\ is_empty T = false)
  /\ (exists d, diffOne T T' = OK d /\ inert d)
  /\ exists ds, diffList [T] [T'] = OK ds /\ Forall inert ds.
Proof.
  cbv zeta. split; [repeat split |].
  split.
  - exact (proj1 (diff_copy_inert
                    (Element "div" [("id", VStr "x"); ("onclick", VObj 1)]
                       [Empty; Text "a"; Element "b" [("onkeyup", VStr "up")] []])
                    (Element "div" [("id", VStr "x"); ("onclick", VObj 2)]
                       [Empty; Text "a"; Element "b" [("onkeyup", VStr "up")] []])
                    eq_refl eq_refl) eq_refl).
  - exact (proj2 (diff_copy_inert
                    (Element "div" [("id", VStr "x"); ("onclick", VObj 1)]
                       [Empty; Text "a"; Element "b" [("onkeyup", VStr "up")] []])
                    (Element "div" [("id", VStr "x"); ("onclick", VObj 2)]
                       [Empty; Text "a"; Element "b" [("onkeyup", VStr "up")] []])
                    eq_refl eq_refl)).
Defined.

(* ----------------------------------------------------------------- *)
(** ** Positions of [diffList] *)

(** C6: [diffList] filters [Empty] from both lists and returns a script
    of length [max |prev| |next|] (lengths after filtering) that has
    [Create(next[i])] at [i >= |prev|], [Remove] at [i >= |next|] and
    [diffOne(prev[i], next[i])] elsewhere; for an element or text [A]
    with typed attributes and an element or text [B],
    [diffList([A], [A, B])] is [[Noop, Create(B)]] and
    [diffList([A, B], [A])] is [[Noop, Remove]]. *)
Theorem diffList_positions (prev next : list Spec) (A B : Spec) :
  is_empty A = false -> is_empty B = false -> well_typed A = true ->
  (let ls := removeEmpty prev in
   let rs := removeEmpty next in
   exists ds,
     diffList prev next = OK ds
     /\ List.length ds = Nat.max (List.length ls) (List.length rs)
     /\ forall i, i < Nat.max (List.length ls) (List.length rs) ->
          (List.length ls <= i ->
             exists r, nth_error rs i = Some r
                       /\ nth_error ds i = Some (Create r))
          /\ (i < List.length ls -> List.length rs <= i ->
                nth_error ds i = Some Remove)
          /\ (i < List.length ls -> i < List.length rs ->
                exists l r d, nth_error ls i = Some l
                              /\ nth_error rs i = Some r
                              /\ diffOne l r = OK d
                              /\ nth_error ds i = Some d))
  /\ diffList [A] [A; B] = OK [Noop; Create B]
  /\ diffList [A; B] [A] = OK [Noop; Remove].
Proof.
  intros HA HB Ht. split; [apply diffList_nth |].
  assert (Hself : diffOne A A = OK Noop)
    by (apply diffOne_copy; [exact Ht | apply struct_eq_refl | exact HA]).
  unfold diffList, removeEmpty. cbn [filter]. rewrite HA, HB. cbn.
  unfold diffAt. cbn. rewrite Hself. now split.
Qed.

Lemma diffList_positions_witness :
  let A := Element "li" [("class", VStr "item"); ("onclick", VObj 7)] [Text "one"] in
  let B := Text "two" in
  (is_empty A = false /\ is_empty B = false /\ well_typed A = true)
  /\ diffList [Empty; A] [B; Empty; A; B] = OK [Replace B; Create A; Create B]
  /\ diffList [A] [A; B] = OK [Noop; Create B]
  /\ diffList [A; B] [A] = OK [Noop; Remove].
Proof.
  cbv zeta. split; [repeat split |].
  pose proof (diffList_positions
                [Empty; Element "li" [("class", VStr "item"); ("onclick", VObj 7)] [Text "one"]]
                [Text "two"; Empty;
                 Element "li" [("class", VStr "item"); ("onclick", VObj 7)] [Text "one"];
                 Text "two"]
                (Element "li" [("class", VStr "item"); ("onclick", VObj 7)] [Text "one"])
                (Text "two") eq_refl eq_refl eq_refl) as [_ H].
  split; [reflexivity | exact H].
Defined.

(* ----------------------------------------------------------------- *)
(** ** The child-count check of [modify] *)

Lemma forEach_invariant {A} (Inv : Node -> Prop) (body : Node -> A -> M Node)
      (xs : list A) :
  (forall el x n, Inv el -> exists el' n', body el x n = OK (el', n') /\ Inv el') ->
  forall el n, Inv el ->
    exists el' n', forEach body xs el n = OK (el', n') /\ Inv el'.
Proof.
  intro Hbody. induction xs as [| x xs IH]; intros el n Hel.
  - now exists el, n.
  - destruct (Hbody el x n Hel) as (el1 & n1 & H1 & Hel1).
    destruct (IH el1 n1 Hel1) as (el2 & n2 & H2 & Hel2).
    exists el2, n2. split; [| exact Hel2].
    cbn [forEach]. unfold bind at 1. now rewrite H1.
Qed.

Lemma forEach_preserves {A} (Inv : Node -> Prop) (body : Node -> A -> M Node)
      (xs : list A) :
  (forall el x n el' n', Inv el -> body el x n = OK (el', n') -> Inv el') ->
  forall el n el' n', Inv el -> forEach body xs el n = OK (el', n') -> Inv el'.
Proof.
  intro Hbody. induction xs as [| x xs IH]; intros el n el' n' Hel.
  - cbn. unfold ret. now intros [= <- _].
  - cbn [forEach]. unfold bind at 1.
    destruct (body el x n) as [[el1 n1] |] eqn:E; [| discriminate].
    apply IH. exact (Hbody _ _ _ _ _ Hel E).
Qed.

Lemma get_no_string (o : dict value) (k : string) :
  no_string_values o = true -> is_string (get k o) = false.
Proof.
  unfold get. induction o as [| [k0 v0] o IH]; [reflexivity |].
  cbn. intro H. apply andb_prop in H as [Hv H].
  destruct (String.eqb k k0); [now apply negb_true_iff in Hv | now apply IH].
Qed.

(** The attribute and listener loops of [modify] run to their end on an
    element and leave its tag and its children alone, when no value of
    [removeListeners] is a string. *)
Lemma modifyAttrs_element (diff : ContentsDiff) (t : string) (a : dict string)
      (ls : list listener) (kids : list Node) (n : nat) :
  no_string_values (removeListeners diff) = true ->
  exists a' ls' n',
    modifyAttrs diff (ElementNode t a ls kids) n = OK (ElementNode t a' ls' kids, n').
Proof.
  intro Hrl.
  set (Inv := fun el : Node => exists a ls, el = ElementNode t a ls kids).
  assert (H0 : Inv (ElementNode t a ls kids)) by now exists a, ls.
  unfold modifyAttrs.
  destruct (forEach_invariant Inv
              (fun el attr => lift (removeAttribute attr el))
              (map index_name (seq 0 (List.length (removeAttr diff)))))
    with (el := ElementNode t a ls kids) (n := n)
    as (el1 & n1 & E1 & H1); [| exact H0 |].
  { intros el x m (a0 & l0 & ->). cbn. eexists _, m. split; [reflexivity |].
    now eexists _, _. }
  destruct (forEach_invariant Inv
              (fun el attr => lift (setAttribute attr (get attr (setAttr diff)) el))
              (keys (setAttr diff)))
    with (el := el1) (n := n1)
    as (el2 & n2 & E2 & H2); [| exact H1 |].
  { intros el x m (a0 & l0 & ->). cbn. eexists _, m. split; [reflexivity |].
    now eexists _, _. }
  destruct (forEach_invariant Inv
              (fun el event =>
                 lift (removeEventListener event (get event (removeListeners diff)) el))
              (keys (removeListeners diff)))
    with (el := el2) (n := n2)
    as (el3 & n3 & E3 & H3); [| exact H2 |].
  { intros el x m (a0 & l0 & ->). unfold removeEventListener.
    pose proof (get_no_string (removeListeners diff) x Hrl) as Hx.
    destruct (get x (removeListeners diff)); try discriminate;
      cbn; eexists _, m; (split; [reflexivity |]); now eexists _, _. }
  destruct (forEach_invariant Inv
              (fun el event =>
                 bind (newArrow (get event (addListeners diff)))
                      (fun cb => ret (addEventListener event cb el)))
              (keys (addListeners diff)))
    with (el := el3) (n := n3)
    as (el4 & n4 & E4 & H4); [| exact H3 |].
  { intros el x m (a0 & l0 & ->). cbn. unfold addEventListener. cbn.
    destruct (existsb _ l0); eexists _, _; (split; [reflexivity |]);
      now eexists _, _. }
  destruct H4 as (a4 & l4 & ->). exists a4, l4, n4.
  unfold bind at 1. rewrite E1. unfold bind at 1. rewrite E2.
  unfold bind at 1. rewrite E3. exact E4.
Qed.

(** The check of [modify]: when the edit declares fewer children than
    the live node has, and the listener loop has not thrown, [modify]
    throws "unmatched children lengths" and applies none of the child
    scripts. *)
Lemma modify_unmatched_children (el : Node) (diff : ContentsDiff) (n : nat) :
  no_string_values (removeListeners diff) = true ->
  List.length (children diff) < List.length (childNodes el) ->
  modify el diff n = Err UnmatchedChildren.
Proof.
  intros Hrl Hlt. destruct el as [t a ls kids | d ls]; [| cbn in Hlt; lia].
  cbn [childNodes] in Hlt.
  destruct (modifyAttrs_element diff t a ls kids n Hrl) as (a' & ls' & n' & E).
  unfold modify, modifyWith, bind. rewrite E. cbn [childNodes].
  apply Nat.ltb_lt in Hlt. now rewrite Hlt.
Qed.

(** C9: the check for a script that is shorter than the live child list
    is in [modify] only.  [apply], which [draw] calls on the mount root,
    has none: [init] on a root with a child and a view that renders
    nothing returns and leaves the child in place, and [apply] with one
    [Noop] on two children returns as well.  In [modify] the check
    throws, but after the listener loop, so that a string under
    [removeListeners] gives the [TypeError] of [removeEventListener]
    instead. *)
Theorem shorter_script_on_root_accepted :
  let two := ElementNode "main" [] [] [TextNode "a" []; TextNode "b" []] in
  let stale := ElementNode "main" [] [] [TextNode "stale" []] in
  snd (init (fun _ : nat => []) stale 0) = OK (mkLoop 0 [] [] stale 0)
  /\ apply two [Noop] 0 = OK (two, 0)
  /\ modify two (mkContentsDiff [] [] [] [] [Noop]) 0 = Err UnmatchedChildren
  /\ modify two (mkContentsDiff [] [] [("click", VStr "old")] [] [Noop]) 0
     = Err TypeError.
Proof. cbv zeta. repeat split; reflexivity. Qed.

(** [apply] itself, which [draw] calls on the mount root, has no such
    check: a shorter script leaves the remaining live children in
    place. *)
Example apply_shorter_script :
  apply (ElementNode "main" [] [] [TextNode "a" []; TextNode "b" []]) [Noop] 0
  = OK (ElementNode "main" [] [] [TextNode "a" []; TextNode "b" []], 0).
Proof. reflexivity. Qed.

(* ----------------------------------------------------------------- *)
(** ** One tick of the loop *)

Section LoopProperties.
Variable State : Type.
Variable update : State -> value -> State * list value.
Variable view : State -> list Spec.

Lemma enqueue_all (sent : list value) (L : Loop State) :
  fold_left (fun L m => enqueue m L) sent L
  = mkLoop (state L) (spec L) (queue L ++ sent) (root L) (nextRef L).
Proof.
  revert L. induction sent as [| m sent IH]; intro L; cbn [fold_left].
  - rewrite app_nil_r. now destruct L.
  - rewrite IH. unfold enqueue. cbn. now rewrite <- app_assoc.
Qed.

(** The [forEach] of [updateState]: [update] is called on the messages
    in order, each on the state the previous call returned, and what
    the calls enqueue is appended to the current queue. *)
Lemma forEach_runUpdate (msgs : list value) (calls : list (call State))
      (L : Loop State) :
  fold_left (runUpdate update) msgs (calls, L)
  = (calls ++ updateCalls update (state L) msgs,
     mkLoop (foldUpdate update (state L) msgs) (spec L)
            (queue L ++ sentBy update (state L) msgs) (root L) (nextRef L)).
Proof.
  revert calls L. induction msgs as [| msg msgs IH]; intros calls L.
  - cbn. rewrite !app_nil_r. now destruct L.
  - cbn [fold_left runUpdate].
    destruct (update (state L) msg) as [s' sent] eqn:E.
    rewrite enqueue_all, IH. cbn [state spec queue root nextRef].
    cbn [updateCalls sentBy foldUpdate fold_left]. rewrite E. cbn [fst snd].
    now rewrite <- !app_assoc.
Qed.

(** A run of [updateState] on a non-empty queue. *)
Lemma updateState_batch (L : Loop State) :
  queue L <> [] ->
  let s := foldUpdate update (state L) (queue L) in
  let L1 := mkLoop s (spec L) (sentBy update (state L) (queue L))
                   (root L) (nextRef L) in
  updateState update view L
  = (updateCalls update (state L) (queue L) ++ fst (draw view L1),
     snd (draw view L1)).
Proof.
  intro Hq. cbv zeta. unfold updateState.
  destruct (queue L) as [| m q] eqn:Eq; [congruence |].
  cbn [List.length Nat.ltb Nat.leb].
  rewrite forEach_runUpdate. cbn [state spec queue root nextRef app].
  now destruct (draw view _).
Qed.

Lemma draw_calls (L : Loop State) :
  exists diffs,
    diffList (spec L) (view (state L)) = OK diffs
    /\ fst (draw view L) = [CallView (state L); CallApply diffs]
    /\ snd (draw view L)
       = match apply (root L) diffs (nextRef L) with
         | Err e => Err e
         | OK (root', n') =>
             OK (mkLoop (state L) (view (state L)) (queue L) root' n')
         end.
Proof.
  destruct (diffList_total (spec L) (view (state L))) as [diffs E].
  exists diffs. unfold draw. rewrite E. now repeat split.
Qed.

Lemma updated_updateCalls (s : State) (msgs : list value) :
  updated (updateCalls update s msgs) = msgs.
Proof.
  revert s. induction msgs as [| m msgs IH]; intro s; [reflexivity |].
  cbn. unfold updated in IH. now rewrite IH.
Qed.

(** Any run of [updateState] passes to [update] the messages that were
    in the queue when it started, and no others. *)
Lemma updateState_updated (L : Loop State) :
  updated (fst (updateState update view L)) = queue L.
Proof.
  destruct (queue L) as [| m q] eqn:Eq.
  - unfold updateState. now rewrite Eq.
  - rewrite updateState_batch by congruence. cbn [fst]. rewrite Eq.
    destruct (draw_calls (mkLoop (foldUpdate update (state L) (m :: q)) (spec L)
                                 (sentBy update (state L) (m :: q))
                                 (root L) (nextRef L)))
      as (diffs & _ & -> & _).
    unfold updated. rewrite flat_map_app. fold (updated (updateCalls update (state L) (m :: q))).
    rewrite updated_updateCalls. cbn. now rewrite app_nil_r.
Qed.

(** C8: with [m1], [m2] in the queue, a run of [updateState] calls
    [update] on [m1] and then on [m2] with the state the first call
    returned, then [view] once and [apply] once; if the patch does not
    throw, the state left is [update(update(S, m1), m2)] and the queue
    holds what the two calls enqueued, which is what the next run
    passes to [update]. *)
Theorem updateState_two_messages (L : Loop State) (m1 m2 : value) :
  queue L = [m1; m2] ->
  let s1 := fst (update (state L) m1) in
  let s2 := fst (update s1 m2) in
  let sent := snd (update (state L) m1) ++ snd (update s1 m2) in
  exists diffs,
    diffList (spec L) (view s2) = OK diffs
    /\ fst (updateState update view L)
       = [CallUpdate (state L) m1; CallUpdate s1 m2; CallView s2; CallApply diffs]
    /\ draws (fst (updateState update view L)) = 1
    /\ snd (updateState update view L)
       = match apply (root L) diffs (nextRef L) with
         | Err e => Err e
         | OK (root', n') => OK (mkLoop s2 (view s2) sent root' n')
         end
    /\ forall L', snd (updateState update view L) = OK L' ->
         state L' = s2 /\ queue L' = sent
         /\ updated (fst (updateState update view L')) = sent.
Proof.
  intro Hq. cbv zeta.
  rewrite updateState_batch by (rewrite Hq; discriminate).
  rewrite Hq. cbn [foldUpdate fold_left sentBy updateCalls fst snd].
  rewrite app_nil_r.
  set (s1 := fst (update (state L) m1)).
  set (s2 := fst (update s1 m2)).
  set (sent := snd (update (state L) m1) ++ snd (update s1 m2)).
  destruct (draw_calls (mkLoop s2 (spec L) sent (root L) (nextRef L)))
    as (diffs & Hd & Hcalls & Hres).
  cbn [state spec queue root nextRef] in Hd, Hcalls, Hres.
  exists diffs. rewrite Hcalls, Hres.
  split; [exact Hd |]. do 3 (split; [reflexivity |]).
  intros L' HL'. cbn [snd] in HL'.
  destruct (apply (root L) diffs (nextRef L)) as [[root' n'] |]; [| discriminate].
  injection HL' as <-. cbn [state queue].
  now rewrite updateState_updated.
Qed.
End LoopProperties.

Lemma updateState_two_messages_witness :
  queue Counter.mounted = [VStr "inc"; VStr "twice"]
  /\ fst (updateState Counter.update Counter.view Counter.mounted)
     = [CallUpdate 1 (VStr "inc"); CallUpdate 2 (VStr "twice"); CallView 4;
        CallApply [Create (Element "button" [("onclick", VStr "inc")] [Text "4"])]]
  /\ exists diffs,
       diffList (spec Counter.mounted) (Counter.view 4) = OK diffs
       /\ fst (updateState Counter.update Counter.view Counter.mounted)
          = [CallUpdate 1 (VStr "inc"); CallUpdate 2 (VStr "twice"); CallView 4;
             CallApply diffs]
       /\ draws (fst (updateState Counter.update Counter.view Counter.mounted)) = 1
       /\ snd (updateState Counter.update Counter.view Counter.mounted)
          = match apply (root Counter.mounted) diffs (nextRef Counter.mounted) with
            | Err e => Err e
            | OK (root', n') => OK (mkLoop 4 (Counter.view 4) [VStr "inc"] root' n')
            end
       /\ forall L', snd (updateState Counter.update Counter.view Counter.mounted) = OK L' ->
            state L' = 4 /\ queue L' = [VStr "inc"]
            /\ updated (fst (updateState Counter.update Counter.view L')) = [VStr "inc"].
Proof.
  split; [reflexivity |]. split; [reflexivity |].
  exact (updateState_two_messages nat Counter.update Counter.view Counter.mounted
           (VStr "inc") (VStr "twice") eq_refl).
Defined.


(* ================================================================= *)
(** * Further properties of the differ *)

(** [diffOne] throws exactly when its left argument is [Empty] and its
    right argument is not an element, and then a [TypeError]. *)
Theorem diffOne_throws_iff (l r : Spec) (e : error) :
  diffOne l r = Err e <->
  l = Empty /\ e = TypeError
  /\ match r with Element _ _ _ => False | _ => True end.
Proof.
  split.
  - intro H. destruct l as [lt la lc | lt |].
    + destruct (diffOne_total (Element lt la lc) r eq_refl) as [d Hd]. congruence.
    + destruct (diffOne_total (Text lt) r eq_refl) as [d Hd]. congruence.
    + destruct r; cbn in H; try discriminate; injection H as <-; now repeat split.
  - intros (-> & -> & Hr). destruct r; [contradiction | reflexivity | reflexivity].
Qed.

(** [diffOne] never answers [Remove] or [Create], and a [Replace] holds
    its right argument. *)
Theorem diffOne_result_kinds (l r : Spec) :
  match diffOne l r with
  | OK Remove => False
  | OK (Create _) => False
  | OK (Replace s) => s = r
  | _ => True
  end.
Proof.
  destruct l as [lt la lc | lt |]; destruct r as [rt ra rc | rt |]; cbn [diffOne];
    try exact I; try reflexivity.
  - destruct (negb (String.eqb lt rt)); [reflexivity |].
    destruct (diffWalk diffOne lc (removeEmpty rc)); cbn [rbind]; [| exact I].
    unfold finishDiff. now destruct (_ && _)%bool.
  - now destruct (negb (String.eqb lt rt)).
Qed.

(** A [Modify] comes from two elements with the same tag only; it holds
    the attribute delta of the two dictionaries and, for the children,
    the result of [diffList], one entry per position of the longer
    filtered child list. *)
Theorem diffOne_Modify_inv (l r : Spec) (c : ContentsDiff) :
  diffOne l r = OK (Modify c) ->
  exists tag la lc ra rc,
    l = Element tag la lc /\ r = Element tag ra rc
    /\ removeAttr c = d_removeAttr (attrDelta la ra)
    /\ setAttr c = d_setAttr (attrDelta la ra)
    /\ removeListeners c = d_removeListeners (attrDelta la ra)
    /\ addListeners c = d_addListeners (attrDelta la ra)
    /\ diffList lc rc = OK (children c)
    /\ List.length (children c)
       = Nat.max (List.length (removeEmpty lc)) (List.length (removeEmpty rc)).
Proof.
  destruct l as [lt la lc | lt |]; destruct r as [rt ra rc | rt |];
    try (cbn [diffOne]; discriminate).
  - rewrite diffOne_Element.
    destruct (String.eqb_spec lt rt) as [<- | Hne]; cbn [negb]; [| discriminate].
    destruct (diffList_nth lc rc) as (ds & Hds & Hlen & _). cbv zeta in Hlen.
    rewrite Hds. cbn [rbind]. unfold finishDiff.
    destruct (_ && _)%bool; [discriminate |]. intros [= <-].
    exists lt, la, lc, ra, rc. cbn. now repeat split.
  - cbn [diffOne]. destruct (negb (String.eqb lt rt)); discriminate.
Qed.

Lemma diffOne_Modify_inv_witness :
  let l := Element "ul" [("class", VStr "a")] [Text "x"; Empty] in
  let r := Element "ul" [("class", VStr "b")] [Text "x"; Text "y"; Text "z"] in
  exists c, diffOne l r = OK (Modify c)
            /\ children c = [Noop; Create (Text "y"); Create (Text "z")]
            /\ List.length (children c) = 3.
Proof.
  cbv zeta. eexists. split; [reflexivity |].
  destruct (diffOne_Modify_inv
              (Element "ul" [("class", VStr "a")] [Text "x"; Empty])
              (Element "ul" [("class", VStr "b")] [Text "x"; Text "y"; Text "z"])
              _ eq_refl) as (tag & la & lc & ra & rc & H1 & H2 & _ & _ & _ & _ & _ & Hlen).
  injection H1 as <- <- <-. injection H2 as <- <-.
  split; [reflexivity | exact Hlen].
Defined.

Lemma diffWalk_no_empty (ls rs : list Spec) (ds : list ElementDiff) :
  Forall (fun l => forall r d, is_empty r = false -> diffOne l r = OK d ->
                               no_empty_script d = true) ls ->
  forallb (fun r => negb (is_empty r)) rs = true ->
  diffWalk diffOne ls rs = OK ds -> forallb no_empty_script ds = true.
Proof.
  intro H. revert rs ds. induction H as [| l ls Hl _ IH]; intros rs ds Hrs.
  - cbn [diffWalk]. intros [= <-]. induction rs as [| r rs IHr]; [reflexivity |].
    cbn in Hrs |- *. apply andb_prop in Hrs as [-> Hrs]. now apply IHr.
  - cbn [diffWalk]. destruct (is_empty l); [now apply IH |].
    destruct rs as [| r rs].
    + destruct (diffWalk diffOne ls []) as [ds' |] eqn:E; [| discriminate].
      cbn [rbind]. intros [= <-]. cbn. now apply (IH [] ds').
    + cbn in Hrs. apply andb_prop in Hrs as [Hr Hrs]. apply negb_true_iff in Hr.
      destruct (diffOne l r) as [d |] eqn:Ed; [| discriminate]. cbn [rbind].
      destruct (diffWalk diffOne ls rs) as [ds' |] eqn:E; [| discriminate].
      cbn [rbind]. intros [= <-]. cbn.
      rewrite (Hl r d Hr Ed). now apply (IH rs ds').
Qed.

Lemma removeEmpty_all_not_empty (els : list Spec) :
  forallb (fun r => negb (is_empty r)) (removeEmpty els) = true.
Proof.
  apply forallb_forall. intros x Hx. apply removeEmpty_not_empty in Hx.
  now rewrite Hx.
Qed.

Lemma diffOne_no_empty (l r : Spec) (d : ElementDiff) :
  is_empty r = false -> diffOne l r = OK d -> no_empty_script d = true.
Proof.
  revert r d. induction l as [lt la lc IH | lt |] using Spec_nested_ind;
    intros r d Hr; destruct r as [rt ra rc | rt |]; try discriminate; cbn [diffOne].
  - destruct (negb (String.eqb lt rt)); [now intros [= <-] |].
    destruct (diffWalk diffOne lc (removeEmpty rc)) as [ds |] eqn:E; [| discriminate].
    cbn [rbind]. intros [= <-]. unfold finishDiff.
    destruct (_ && _)%bool; [reflexivity |]. cbn.
    exact (diffWalk_no_empty lc (removeEmpty rc) ds IH (removeEmpty_all_not_empty rc) E).
  - now intros [= <-].
  - now intros [= <-].
  - destruct (negb (String.eqb lt rt)); now intros [= <-].
  - now intros [= <-].
Qed.

(** No [Empty] node gets into a script of [diffList]: neither at a
    position of the result nor below a [Modify] is there a [Create] or
    a [Replace] of one. *)
Theorem diffList_no_empty (prev next : list Spec) :
  exists ds, diffList prev next = OK ds /\ forallb no_empty_script ds = true.
Proof.
  destruct (diffList_total prev next) as [ds Hds]. exists ds. split; [exact Hds |].
  rewrite <- diffList_unfold in Hds.
  apply (diffWalk_no_empty prev (removeEmpty next) ds); [| | exact Hds].
  - apply Forall_forall. intros l _ r d. apply diffOne_no_empty.
  - apply removeEmpty_all_not_empty.
Qed.

(* ----------------------------------------------------------------- *)
(** ** The attribute delta *)

Lemma set_absent {V} (k : string) (v : V) (o : dict V) :
  ~ In k (keys o) -> set k v o = o ++ [(k, v)].
Proof.
  induction o as [| [k' v'] o IH]; intro H; [reflexivity |].
  cbn [set]. destruct (String.eqb_spec k k') as [-> | Hne].
  - exfalso. apply H. now left.
  - cbn [app]. f_equal. apply IH. intro Hin. apply H. now right.
Qed.

Lemma removed_fold (l r : dict value) (ks : list string) (acc : Delta) :
  d_removeAttr (fold_left (removedStep l r) ks acc)
  = d_removeAttr acc
    ++ filter (fun k => (is_undefined (get k r) && is_null (eventName k))%bool) ks
  /\ d_setAttr (fold_left (removedStep l r) ks acc) = d_setAttr acc.
Proof.
  revert acc. induction ks as [| k ks IH]; intro acc; cbn [fold_left filter].
  - now rewrite app_nil_r.
  - destruct (IH (removedStep l r acc k)) as [-> ->]. unfold removedStep.
    destruct (is_undefined (get k r)); cbn [andb]; [| now split].
    destruct (eventName k); cbn [is_null d_removeAttr d_setAttr]; [now split |].
    now rewrite <- app_assoc.
Qed.

Lemma changed_fold_removeAttr (l r : dict value) (ks : list string) (acc : Delta) :
  d_removeAttr (fold_left (changedStep l r) ks acc) = d_removeAttr acc.
Proof.
  revert acc. induction ks as [| k ks IH]; intro acc; [reflexivity |].
  cbn [fold_left]. rewrite IH. unfold changedStep.
  destruct (negb _); [| reflexivity]. now destruct (eventName k).
Qed.

Lemma changed_fold_setAttr (l r : dict value) (ks : list string) (acc : Delta) :
  NoDup ks -> (forall k, In k ks -> ~ In k (keys (d_setAttr acc))) ->
  d_setAttr (fold_left (changedStep l r) ks acc)
  = d_setAttr acc
    ++ map (fun k => (k, get k r))
           (filter (fun k => (negb (strict_eq (get k r) (get k l))
                              && is_null (eventName k))%bool) ks).
Proof.
  intro Hnd. revert acc. induction Hnd as [| k ks Hk _ IH]; intros acc Hfresh.
  - cbn. now rewrite app_nil_r.
  - cbn [fold_left filter].
    assert (Hrest : forall k', In k' ks -> ~ In k' (keys (d_setAttr acc)))
      by (intros k' Hk'; apply Hfresh; now right).
    unfold changedStep at 2.
    destruct (negb (strict_eq (get k r) (get k l))); cbn [andb]; [| now apply IH].
    destruct (eventName k); cbn [is_null].
    + now rewrite IH.
    + rewrite IH; cbn [d_setAttr].
      * rewrite set_absent by (apply Hfresh; now left).
        cbn [map]. now rewrite <- app_assoc.
      * intros k' Hk'. rewrite set_absent by (apply Hfresh; now left).
        unfold keys. rewrite map_app, in_app_iff. cbn.
        intros [Hin | [-> | []]]; [now apply (Hrest k') | contradiction].
Qed.

(** What [diffOne] removes and sets: [removeAttr] lists, in the order of
    the left dictionary, its names that are no event names and read as
    [undefined] on the right; [setAttr] holds, in the order of the
    right dictionary, its names that are no event names and whose value
    is not [===] to the one on the left, each with the right value. *)
Theorem attrDelta_attributes (l r : dict value) :
  NoDup (keys r) ->
  d_removeAttr (attrDelta l r)
  = filter (fun k => (is_undefined (get k r) && is_null (eventName k))%bool) (keys l)
  /\ d_setAttr (attrDelta l r)
     = map (fun k => (k, get k r))
           (filter (fun k => (negb (strict_eq (get k r) (get k l))
                              && is_null (eventName k))%bool) (keys r)).
Proof.
  intro Hnd. unfold attrDelta.
  destruct (removed_fold l r (keys l) noDelta) as [Hrm Hset]. split.
  - now rewrite changed_fold_removeAttr, Hrm.
  - rewrite changed_fold_setAttr; [now rewrite Hset | exact Hnd |].
    intros k _. now rewrite Hset.
Qed.

Lemma attrDelta_attributes_witness :
  let l := [("id", VStr "x"); ("title", VStr "t"); ("onclick", VObj 1)] in
  let r := [("title", VStr "u"); ("class", VStr "y"); ("onclick", VObj 2)] in
  NoDup (keys r)
  /\ d_removeAttr (attrDelta l r) = ["id"]
  /\ d_setAttr (attrDelta l r) = [("title", VStr "u"); ("class", VStr "y")].
Proof.
  cbv zeta.
  assert (Hnd : NoDup (keys [("title", VStr "u"); ("class", VStr "y"); ("onclick", VObj 2)])).
  { cbn. repeat constructor; cbn; intuition discriminate. }
  split; [exact Hnd |].
  exact (attrDelta_attributes
           [("id", VStr "x"); ("title", VStr "t"); ("onclick", VObj 1)]
           [("title", VStr "u"); ("class", VStr "y"); ("onclick", VObj 2)] Hnd).
Defined.

(* ================================================================= *)
(** * Further properties of the patcher *)

(* ----------------------------------------------------------------- *)
(** ** Scripts of [Noop] *)

Lemma applyLoop_noops (ds : list ElementDiff) (el : Node) (k n : nat) :
  forallb is_noop ds = true -> applyLoop applyStep ds (el, k) n = OK (el, n).
Proof.
  revert k. induction ds as [| d ds IH]; intros k H; [reflexivity |].
  cbn in H. apply andb_prop in H as [Hd H]. destruct d; try discriminate.
  cbn [applyLoop]. unfold bind. cbn. now apply IH.
Qed.

(** Applying a script that is [Noop] at every position changes nothing,
    whatever the live node and however long the script. *)
Theorem apply_noops_inert (el : Node) (ds : list ElementDiff) (n : nat) :
  forallb is_noop ds = true -> apply el ds n = OK (el, n).
Proof. apply applyLoop_noops. Qed.

Lemma apply_noops_inert_witness :
  forallb is_noop [Noop; Noop; Noop] = true
  /\ apply (ElementNode "ul" [] [] [TextNode "a" []]) [Noop; Noop; Noop] 5
     = OK (ElementNode "ul" [] [] [TextNode "a" []], 5).
Proof.
  split; [reflexivity |].
  exact (apply_noops_inert (ElementNode "ul" [] [] [TextNode "a" []])
                           [Noop; Noop; Noop] 5 eq_refl).
Defined.

(* ----------------------------------------------------------------- *)
(** ** Attributes and listeners of a created element *)

Lemma lookup_set {V} (k k' : string) (v : V) (o : dict V) :
  lookup k (set k' v o) = if String.eqb k k' then Some v else lookup k o.
Proof.
  induction o as [| [k0 v0] o IH]; cbn [set lookup]; [reflexivity |].
  destruct (String.eqb_spec k' k0) as [-> | Hne]; cbn [lookup].
  - now destruct (String.eqb k k0).
  - rewrite IH. destruct (String.eqb_spec k k0) as [-> | Hne0]; [| reflexivity].
    destruct (String.eqb_spec k0 k'); [congruence | reflexivity].
Qed.

Lemma lookup_keys {V} (k : string) (o : dict V) :
  existsb (String.eqb k) (keys o)
  = match lookup k o with Some _ => true | None => false end.
Proof.
  induction o as [| [k0 v0] o IH]; [reflexivity |].
  cbn. now destruct (String.eqb k k0).
Qed.

Lemma arrows_below_le (n m : nat) (ls : list listener) :
  n <= m -> arrows_below n ls = true -> arrows_below m ls = true.
Proof.
  intros Hle H. unfold arrows_below in *. rewrite forallb_forall in *.
  intros l Hl. specialize (H l Hl). destruct (l_callback l); [| discriminate].
  apply Nat.ltb_lt in H. apply Nat.ltb_lt. lia.
Qed.

(** A newly allocated arrow function is no registered callback. *)
Lemma fresh_not_registered (n : nat) (type : string) (msg : value)
      (ls : list listener) :
  arrows_below n ls = true ->
  existsb (same_listener (mkListener type (Arrow n msg))) ls = false.
Proof.
  intro H. induction ls as [| l ls IH]; [reflexivity |].
  cbn in H. apply andb_prop in H as [Hl H]. cbn [existsb].
  rewrite (IH H), orb_false_r. unfold same_listener. cbn.
  destruct (l_callback l) as [ref m |]; [| discriminate].
  apply Nat.ltb_lt in Hl. destruct (Nat.eqb_spec n ref); [lia |].
  apply andb_false_r.
Qed.

Lemma dispatch_snoc (type ev : string) (ref : nat) (msg : value) (t : string)
      (a : dict string) (ls : list listener) (kids : list Node) :
  dispatch type (ElementNode t a (ls ++ [mkListener ev (Arrow ref msg)]) kids)
  = dispatch type (ElementNode t a ls kids)
    ++ (if String.eqb ev type then [msg] else []).
Proof.
  unfold dispatch. cbn [listenersOf]. rewrite flat_map_app. cbn.
  now rewrite app_nil_r.
Qed.

(** The attribute loop of [create] on an element: it does not throw;
    under every name that is not bound as an event it leaves the string
    of the value; it registers one arrow function per bound event. *)
Lemma lower_name_eq (k : string) : lower_name k = true -> toLowerCase k = k.
Proof. apply String.eqb_eq. Qed.

Lemma createAttrs_run (attributes : dict value) (t : string) (kids : list Node)
      (ks : list string) (a : dict string) (ls : list listener) (n : nat) :
  arrows_below n ls = true ->
  exists a' ls' n',
    forEach (createAttr attributes) ks (ElementNode t a ls kids) n
    = OK (ElementNode t a' ls' kids, n')
    /\ n <= n' /\ arrows_below n' ls' = true
    /\ (plain_names_lower ks = true ->
        forall k, lookup k a'
                  = if (existsb (String.eqb k) ks && negb (truthy (eventName k)))%bool
                    then Some (toString (get k attributes)) else lookup k a)
    /\ (forall type, dispatch type (ElementNode t a' ls' kids)
                     = dispatch type (ElementNode t a ls kids)
                       ++ boundMessages attributes ks type).
Proof.
  revert a ls n. induction ks as [| k0 ks IH]; intros a ls n Hfresh.
  - exists a, ls, n. cbn. repeat split; auto. intro type. now rewrite app_nil_r.
  - cbn [forEach]. unfold bind at 1, createAttr at 1.
    destruct (eventName k0) as [ev |] eqn:Ev; cbn [truthy].
    + destruct (String.eqb_spec ev "") as [-> | Hev]; cbn [negb].
      * cbn [lift setAttribute].
        destruct (IH (set (toLowerCase k0) (toString (get k0 attributes)) a) ls n Hfresh)
          as (a' & ls' & n' & E & Hle & Hf & Ha & Hd).
        exists a', ls', n'. rewrite E.
        split; [reflexivity |]. split; [exact Hle |]. split; [exact Hf |]. split.
        -- intros Hlow k. cbn [plain_names_lower forallb] in Hlow.
           apply andb_prop in Hlow as [Hk0 Hlow]. rewrite Ev in Hk0. cbn in Hk0.
           rewrite (Ha Hlow), (lower_name_eq k0 Hk0), lookup_set. cbn [existsb].
           destruct (String.eqb_spec k k0) as [-> | Hne]; cbn [orb]; [| reflexivity].
           rewrite Ev. cbn. now destruct (existsb (String.eqb k0) ks).
        -- intro type. rewrite Hd. unfold dispatch, boundMessages.
           cbn [listenersOf flat_map]. rewrite Ev. cbn.
           now rewrite andb_false_r.
      * unfold bind, newArrow, ret, addEventListener. cbn [listenersOf].
        rewrite (fresh_not_registered n ev (get k0 attributes) ls Hfresh).
        cbn [withListeners].
        destruct (IH a (ls ++ [mkListener ev (Arrow n (get k0 attributes))]) (S n))
          as (a' & ls' & n' & E & Hle & Hf & Ha & Hd).
        { pose proof (arrows_below_le n (S n) ls (Nat.le_succ_diag_r n) Hfresh) as H1.
          unfold arrows_below in H1 |- *. rewrite forallb_app, H1.
          cbn [forallb l_callback andb]. rewrite andb_true_r.
          apply Nat.ltb_lt. lia. }
        exists a', ls', n'. rewrite E.
        split; [reflexivity |]. split; [lia |]. split; [exact Hf |]. split.
        -- intros Hlow k. cbn [plain_names_lower forallb] in Hlow.
           apply andb_prop in Hlow as [_ Hlow].
           rewrite (Ha Hlow). cbn [existsb].
           destruct (String.eqb_spec k k0) as [-> | Hne]; cbn [orb]; [| reflexivity].
           rewrite Ev. cbn.
           destruct (String.eqb_spec ev ""); [contradiction |].
           cbn. now rewrite andb_false_r.
        -- intro type. rewrite Hd, dispatch_snoc. unfold boundMessages.
           cbn [flat_map]. rewrite Ev.
           destruct (String.eqb_spec ev ""); [contradiction |].
           cbn [negb]. rewrite andb_true_r, <- app_assoc. reflexivity.
    + cbn [lift setAttribute].
      destruct (IH (set (toLowerCase k0) (toString (get k0 attributes)) a) ls n Hfresh)
        as (a' & ls' & n' & E & Hle & Hf & Ha & Hd).
      exists a', ls', n'. rewrite E.
      split; [reflexivity |]. split; [exact Hle |]. split; [exact Hf |]. split.
      * intros Hlow k. cbn [plain_names_lower forallb] in Hlow.
        apply andb_prop in Hlow as [Hk0 Hlow]. rewrite Ev in Hk0. cbn in Hk0.
        rewrite (Ha Hlow), (lower_name_eq k0 Hk0), lookup_set. cbn [existsb].
        destruct (String.eqb_spec k k0) as [-> | Hne]; cbn [orb]; [| reflexivity].
        rewrite Ev. cbn. now destruct (existsb (String.eqb k0) ks).
      * intro type. rewrite Hd. unfold dispatch, boundMessages.
        cbn [listenersOf flat_map]. now rewrite Ev.
Qed.

(** The child loop of [create] only appends children. *)
Lemma createChildren_keeps (f : Spec -> M Node) (raw : list Spec) (count : nat)
      (t : string) (a : dict string) (ls : list listener) (pre : list Node)
      (n : nat) (el' : Node) (n' : nat) :
  createChildren f raw count (ElementNode t a ls pre) n = OK (el', n') ->
  exists kids, el' = ElementNode t a ls (pre ++ kids)
               /\ List.length kids = count.
Proof.
  revert raw pre n. induction count as [| count IH]; intros raw pre n.
  - destruct raw; cbn; unfold ret; intro H; injection H as <- <-; exists [];
      now rewrite app_nil_r.
  - destruct raw as [| c raw]; cbn [createChildren]; [discriminate |].
    unfold bind at 1. destruct (f c n) as [[child n1] |]; [| discriminate].
    unfold bind at 1. cbn [lift appendChild]. intro H.
    destruct (IH _ _ _ H) as (kids & -> & Hlen).
    exists (child :: kids). rewrite <- app_assoc. cbn. now rewrite Hlen.
Qed.

(** What [create] leaves on an element.  An event delivers the values
    of the attributes bound to it, in the order of the dictionary.  The
    other attributes are kept under their names in lower case: when
    these names are in lower case in the spec, the element holds under
    each the string of its value, and nothing under any other name. *)
Theorem create_attributes (tag : string) (attributes : dict value)
        (cs : list Spec) (n : nat) (el : Node) (n' : nat) :
  create (Element tag attributes cs) n = OK (el, n') ->
  (plain_names_lower (keys attributes) = true ->
   forall k, lookup k (attributesOf el)
             = if truthy (eventName k) then None
               else option_map toString (lookup k attributes))
  /\ (forall type, dispatch type el = boundMessages attributes (keys attributes) type).
Proof.
  cbn [create]. unfold bind at 1.
  destruct (createAttrs_run attributes tag [] (keys attributes) [] [] n eq_refl)
    as (a' & ls' & n1 & E & _ & _ & Ha & Hd).
  rewrite E. intro H.
  destruct (createChildren_keeps _ _ _ _ _ _ _ _ _ _ H) as (kids & -> & _).
  split.
  - intros Hlow k. cbn [attributesOf]. rewrite (Ha Hlow), lookup_keys.
    unfold get. cbn [lookup].
    destruct (truthy (eventName k)); cbn [negb]; [now rewrite andb_false_r |].
    rewrite andb_true_r. now destruct (lookup k attributes).
  - intro type. specialize (Hd type). unfold dispatch in *. cbn [listenersOf] in *.
    exact Hd.
Qed.

Lemma create_attributes_witness :
  let attrs := [("id", VStr "x"); ("onClick", VObj 1); ("on", VStr "y");
                ("onclick", VObj 2)] in
  let el := ElementNode "a" [("id", "x"); ("on", "y")]
                        [mkListener "click" (Arrow 0 (VObj 1));
                         mkListener "click" (Arrow 1 (VObj 2))]
                        [TextNode "t" []] in
  create (Element "a" attrs [Text "t"]) 0 = OK (el, 2)
  /\ plain_names_lower (keys attrs) = true
  /\ lookup "id" (attributesOf el) = Some "x"
  /\ lookup "onclick" (attributesOf el) = None
  /\ lookup "on" (attributesOf el) = Some "y"
  /\ dispatch "click" el = [VObj 1; VObj 2].
Proof.
  cbv zeta. split; [reflexivity |]. split; [reflexivity |].
  destruct (create_attributes "a"
              [("id", VStr "x"); ("onClick", VObj 1); ("on", VStr "y"); ("onclick", VObj 2)]
              [Text "t"] 0 _ _ eq_refl) as [Ha Hd].
  split; [exact (Ha eq_refl "id") |]. split; [exact (Ha eq_refl "onclick") |].
  split; [exact (Ha eq_refl "on") | exact (Hd "click")].
Defined.

(* ----------------------------------------------------------------- *)
(** ** When [create] returns and when it throws *)

Lemma clean_not_empty (s : Spec) : clean s = true -> is_empty s = false.
Proof. now destruct s. Qed.

Lemma clean_removeEmpty (cs : list Spec) :
  forallb clean cs = true -> removeEmpty cs = cs.
Proof.
  induction cs as [| c cs IH]; [reflexivity |]. cbn [forallb]. intro H.
  apply andb_prop in H as [Hc H]. unfold removeEmpty in *. cbn [filter].
  rewrite (clean_not_empty c Hc). cbn [negb]. now rewrite IH.
Qed.

Lemma createChildren_clean (cs : list Spec) :
  Forall (fun s => forall n, clean s = true ->
                   exists el n', create s n = OK (el, n') /\ shape s el = true) cs ->
  forallb clean cs = true ->
  forall t a ls pre n,
  exists kids n',
    createChildren create cs (List.length cs) (ElementNode t a ls pre) n
    = OK (ElementNode t a ls (pre ++ kids), n')
    /\ forall2b shape cs kids = true.
Proof.
  intro H. induction H as [| c cs Hc _ IH]; intros Hcl t a ls pre n.
  - exists [], n. cbn. now rewrite app_nil_r.
  - cbn [forallb] in Hcl. apply andb_prop in Hcl as [Hcc Hcl].
    destruct (Hc n Hcc) as (child & n1 & E & Hs).
    destruct (IH Hcl t a ls (pre ++ [child]) n1) as (kids & n' & E' & Hss).
    exists (child :: kids), n'. cbn [List.length createChildren].
    unfold bind at 1. rewrite E. unfold bind at 1. cbn [lift appendChild].
    rewrite E', <- app_assoc. cbn. now rewrite Hs, Hss.
Qed.

Lemma create_clean_shape (s : Spec) (n : nat) :
  clean s = true ->
  exists el n', create s n = OK (el, n') /\ shape s el = true.
Proof.
  revert n. induction s as [tag attrs cs IH | t |] using Spec_nested_ind;
    intros n Hc; [| | discriminate].
  - cbn [clean] in Hc. cbn [create]. unfold bind at 1.
    destruct (createAttrs_run attrs tag [] (keys attrs) [] [] n eq_refl)
      as (a' & ls' & n1 & E & _). rewrite E, (clean_removeEmpty cs Hc).
    destruct (createChildren_clean cs IH Hc tag a' ls' [] n1) as (kids & n' & E' & Hs).
    exists (ElementNode tag a' ls' kids), n'. split; [exact E' |].
    cbn [shape]. now rewrite String.eqb_refl, Hs.
  - exists (TextNode t []), n. split; [reflexivity |]. cbn. apply String.eqb_refl.
Qed.

(** On a spec without [Empty] nodes [create] returns, with a live node
    that has the tags, the texts and the children of the spec, one live
    child per child and in the same order. *)
Theorem create_clean (s : Spec) (n : nat) :
  clean s = true ->
  exists el n', create s n = OK (el, n') /\ shape s el = true.
Proof. apply create_clean_shape. Qed.

Lemma create_clean_witness :
  let s := Element "ul" [("class", VStr "menu")]
                   [Element "li" [("onclick", VObj 1)] [Text "one"]; Text "two"] in
  clean s = true
  /\ exists el n', create s 0 = OK (el, n') /\ shape s el = true.
Proof.
  cbv zeta. split; [reflexivity |].
  exact (create_clean
           (Element "ul" [("class", VStr "menu")]
                    [Element "li" [("onclick", VObj 1)] [Text "one"]; Text "two"])
           0 eq_refl).
Defined.

Lemma createChildren_error (raw : list Spec) :
  Forall (fun s => forall n e, create s n = Err e -> e = TypeError) raw ->
  forall count t a ls pre n e,
    createChildren create raw count (ElementNode t a ls pre) n = Err e ->
    e = TypeError.
Proof.
  intro H. induction H as [| c raw Hc _ IH]; intros count t a ls pre n e.
  - destruct count; cbn; [discriminate | now intros [= <-]].
  - destruct count; cbn [createChildren]; [discriminate |].
    unfold bind at 1. destruct (create c n) as [[child n1] |] eqn:E.
    + unfold bind at 1. cbn [lift appendChild]. apply IH.
    + intros [= <-]. exact (Hc n e0 E).
Qed.

(** The only exception [create] throws is a [TypeError]. *)
Lemma create_error (s : Spec) (n : nat) (e : error) :
  create s n = Err e -> e = TypeError.
Proof.
  revert n e. induction s as [tag attrs cs IH | t |] using Spec_nested_ind;
    intros n e; cbn [create]; [| discriminate | now intros [= <-]].
  unfold bind at 1.
  destruct (createAttrs_run attrs tag [] (keys attrs) [] [] n eq_refl)
    as (a' & ls' & n1 & E & _). rewrite E.
  now apply createChildren_error.
Qed.

(** The child loop of [create] returns only if none of the specs it
    read, the first [count] of the unfiltered list, is [Empty]. *)
Lemma createChildren_ok_prefix (raw : list Spec) (count : nat) (el : Node)
      (n : nat) (r : Node * nat) :
  createChildren create raw count el n = OK r ->
  forallb (fun s => negb (is_empty s)) (firstn count raw) = true.
Proof.
  revert count el n. induction raw as [| c raw IH]; intros count el n.
  - now destruct count.
  - destruct count; [reflexivity |]. cbn [createChildren firstn forallb].
    unfold bind at 1. destruct (create c n) as [[child n1] |] eqn:E; [| discriminate].
    unfold bind at 1. destruct (lift (appendChild child el) n1) as [[el' n2] |];
      [| discriminate].
    intro H. rewrite (IH _ _ _ H), andb_true_r.
    destruct c; [reflexivity | reflexivity | discriminate].
Qed.

Lemma removeEmpty_app (xs ys : list Spec) :
  removeEmpty (xs ++ ys) = removeEmpty xs ++ removeEmpty ys.
Proof. apply filter_app. Qed.

Lemma removeEmpty_length_le (xs : list Spec) :
  List.length (removeEmpty xs) <= List.length xs.
Proof. apply filter_length_le. Qed.

Lemma all_not_empty_removeEmpty (xs : list Spec) :
  forallb (fun s => negb (is_empty s)) xs = true -> removeEmpty xs = xs.
Proof.
  induction xs as [| x xs IH]; [reflexivity |]. cbn [forallb]. intro H.
  apply andb_prop in H as [Hx H]. unfold removeEmpty in *. cbn [filter].
  now rewrite Hx, IH.
Qed.

(** With an [Empty] in front of a sibling that is not [Empty], the
    first [count] entries of the unfiltered list include an [Empty]. *)
Lemma empty_before_sibling (pre mid post : list Spec) (x : Spec) :
  is_empty x = false ->
  forallb (fun s => negb (is_empty s))
          (firstn (List.length (removeEmpty (pre ++ Empty :: mid ++ x :: post)))
                  (pre ++ Empty :: mid ++ x :: post))
  = false.
Proof.
  intro Hx. set (raw := pre ++ Empty :: mid ++ x :: post).
  assert (Hc : List.length (removeEmpty raw)
               = List.length (removeEmpty pre) + List.length (removeEmpty mid)
                 + 1 + List.length (removeEmpty post)).
  { unfold raw. rewrite removeEmpty_app. change (Empty :: mid ++ x :: post)
      with ([Empty] ++ mid ++ [x] ++ post).
    rewrite !removeEmpty_app, !length_app. unfold removeEmpty at 2 4.
    cbn [filter is_empty negb]. rewrite Hx. cbn. lia. }
  destruct (forallb _ _) eqn:F; [exfalso | reflexivity].
  destruct (Nat.le_gt_cases (List.length (removeEmpty raw)) (List.length pre)) as [Hle | Hgt].
  - unfold raw in F at 2. rewrite firstn_app in F.
    replace (List.length (removeEmpty raw) - List.length pre) with 0 in F by lia.
    cbn [firstn] in F. rewrite app_nil_r in F.
    apply all_not_empty_removeEmpty in F.
    assert (Hlen : List.length (removeEmpty (firstn (List.length (removeEmpty raw)) pre))
                   <= List.length (removeEmpty pre)).
    { rewrite <- (firstn_skipn (List.length (removeEmpty raw)) pre) at 2.
      rewrite removeEmpty_app, length_app. lia. }
    rewrite F, length_firstn in Hlen. lia.
  - unfold raw in F at 2. rewrite firstn_app, forallb_app in F.
    apply andb_prop in F as [_ F].
    destruct (List.length (removeEmpty raw) - List.length pre) eqn:D; [lia |].
    discriminate.
Qed.

(** [create] throws a [TypeError] on every element that has an [Empty]
    child in front of a child that is not [Empty]: the loop reads
    [spec.children[i]] for the indices of the filtered list. *)
Theorem create_empty_before_sibling (tag : string) (attrs : dict value)
        (pre mid post : list Spec) (x : Spec) (n : nat) :
  is_empty x = false ->
  create (Element tag attrs (pre ++ Empty :: mid ++ x :: post)) n = Err TypeError.
Proof.
  intro Hx.
  destruct (create (Element tag attrs (pre ++ Empty :: mid ++ x :: post)) n)
    as [r | e] eqn:E.
  - exfalso. cbn [create] in E. unfold bind at 1 in E.
    destruct (createAttrs_run attrs tag [] (keys attrs) [] [] n eq_refl)
      as (a' & ls' & n1 & E1 & _). rewrite E1 in E.
    apply createChildren_ok_prefix in E.
    rewrite (empty_before_sibling pre mid post x Hx) in E. discriminate.
  - f_equal. exact (create_error _ _ _ E).
Qed.

Lemma create_empty_before_sibling_witness :
  is_empty (Text "b") = false
  /\ create (Element "div" [("id", VStr "x")]
                     ([Text "a"] ++ Empty :: [Empty] ++ Text "b" :: [Text "c"])) 0
     = Err TypeError.
Proof.
  split; [reflexivity |].
  exact (create_empty_before_sibling "div" [("id", VStr "x")]
           [Text "a"] [Empty] [Text "c"] (Text "b") 0 eq_refl).
Defined.

(* ----------------------------------------------------------------- *)
(** ** What [modify] does to attributes and listeners *)

Lemma lookup_delete {V} (k k' : string) (o : dict V) :
  lookup k (delete k' o) = if String.eqb k k' then None else lookup k o.
Proof.
  induction o as [| [k0 v0] o IH]; cbn [delete lookup].
  - now destruct (String.eqb k k').
  - destruct (String.eqb_spec k' k0) as [-> | Hne].
    + rewrite IH. now destruct (String.eqb k k0).
    + cbn [lookup]. rewrite IH.
      destruct (String.eqb_spec k k0) as [-> | Hne0]; [| reflexivity].
      destruct (String.eqb_spec k0 k'); [congruence | reflexivity].
Qed.

Lemma digits_lower (d : Decimal.uint) :
  toLowerCase (NilEmpty.string_of_uint d) = NilEmpty.string_of_uint d.
Proof. induction d; cbn; [reflexivity | now rewrite IHd ..]. Qed.

(** The name of an array index is in lower case. *)
Lemma index_name_lower (i : nat) : lower_name (index_name i) = true.
Proof. apply String.eqb_eq. apply digits_lower. Qed.

Lemma removeAttrs_run (names : list string) (t : string) (a : dict string)
      (ls : list listener) (kids : list Node) (n : nat) :
  forallb lower_name names = true ->
  exists a',
    forEach (fun el attr => lift (removeAttribute attr el)) names
            (ElementNode t a ls kids) n
    = OK (ElementNode t a' ls kids, n)
    /\ forall k, lookup k a'
                 = if existsb (String.eqb k) names then None else lookup k a.
Proof.
  revert a. induction names as [| k0 names IH]; intros a Hlow.
  - now exists a.
  - cbn [forallb] in Hlow. apply andb_prop in Hlow as [Hk0 Hlow].
    destruct (IH (delete k0 a) Hlow) as (a' & E & Ha). exists a'.
    split; [cbn [forEach]; unfold bind; cbn [lift removeAttribute];
            now rewrite (lower_name_eq k0 Hk0) |].
    intro k. rewrite Ha, lookup_delete. cbn [existsb].
    destruct (String.eqb k k0); cbn [orb]; [| reflexivity].
    now destruct (existsb (String.eqb k) names).
Qed.

Lemma setAttrs_run (sa : dict value) (ks : list string) (t : string)
      (a : dict string) (ls : list listener) (kids : list Node) (n : nat) :
  forallb lower_name ks = true ->
  exists a',
    forEach (fun el attr => lift (setAttribute attr (get attr sa) el)) ks
            (ElementNode t a ls kids) n
    = OK (ElementNode t a' ls kids, n)
    /\ forall k, lookup k a'
                 = if existsb (String.eqb k) ks then Some (toString (get k sa))
                   else lookup k a.
Proof.
  revert a. induction ks as [| k0 ks IH]; intros a Hlow.
  - now exists a.
  - cbn [forallb] in Hlow. apply andb_prop in Hlow as [Hk0 Hlow].
    destruct (IH (set k0 (toString (get k0 sa)) a) Hlow) as (a' & E & Ha). exists a'.
    split; [cbn [forEach]; unfold bind; cbn [lift setAttribute];
            now rewrite (lower_name_eq k0 Hk0) |].
    intro k. rewrite Ha, lookup_set. cbn [existsb].
    destruct (String.eqb_spec k k0) as [-> | Hne]; cbn [orb]; [| reflexivity].
    now destruct (existsb (String.eqb k0) ks).
Qed.




(** [apply] changes the children of the node it is given, and nothing
    else of it. *)
Lemma applyStep_parent (d : ElementDiff) (t : string) (a : dict string)
      (ls : list listener) (kids : list Node) (k n : nat) (st : Node * nat)
      (n' : nat) :
  applyStep d (ElementNode t a ls kids, k) n = OK (st, n') ->
  exists kids', fst st = ElementNode t a ls kids'.
Proof.
  destruct d as [r | | r | c |]; cbn [applyStep childNodes].
  - unfold bind at 1. destruct (create r n) as [[child n1] |]; [| discriminate].
    destruct (nth_error kids k); [| discriminate].
    unfold ret. intros [= <- _]. now eexists.
  - destruct (nth_error kids k); [| discriminate].
    unfold ret. intros [= <- _]. now eexists.
  - destruct (k <? List.length kids)%nat; [discriminate |].
    unfold bind at 1. destruct (create r n) as [[child n1] |]; [| discriminate].
    unfold bind at 1. cbn [lift appendChild]. unfold ret. intros [= <- _]. now eexists.
  - destruct (nth_error kids k); [| discriminate].
    unfold bind at 1. destruct (modifyWith applyStep n0 c n) as [[child n1] |];
      [| discriminate].
    unfold ret. intros [= <- _]. now eexists.
  - unfold ret. intros [= <- _]. now eexists.
Qed.

Lemma applyLoop_parent (ds : list ElementDiff) (t : string) (a : dict string)
      (ls : list listener) (kids : list Node) (k n : nat) (el' : Node) (n' : nat) :
  applyLoop applyStep ds (ElementNode t a ls kids, k) n = OK (el', n') ->
  exists kids', el' = ElementNode t a ls kids'.
Proof.
  revert kids k n. induction ds as [| d ds IH]; intros kids k n.
  - cbn. unfold ret. intros [= <- _]. now eexists.
  - cbn [applyLoop]. unfold bind at 1.
    destruct (applyStep d (ElementNode t a ls kids, k) n) as [[[el1 k1] n1] |] eqn:E;
      [| discriminate].
    destruct (applyStep_parent _ _ _ _ _ _ _ _ _ E) as [kids1 H1].
    cbn [fst] in H1. subst el1. apply IH.
Qed.

(** The attributes of an element after [modify], for names of
    [setAttr] that are in lower case: every name of [setAttr] holds the
    string of its value; apart from these, the names deleted are the
    array indices "0", "1", ... of [removeAttr], not its entries; every
    other name keeps what it had. *)
Theorem modify_attributes (t : string) (a : dict string) (ls : list listener)
        (kids : list Node) (d : ContentsDiff) (n : nat) (el' : Node) (n' : nat) :
  forallb lower_name (keys (setAttr d)) = true ->
  modify (ElementNode t a ls kids) d n = OK (el', n') ->
  forall k,
    lookup k (attributesOf el')
    = if existsb (String.eqb k) (keys (setAttr d))
      then Some (toString (get k (setAttr d)))
      else if existsb (String.eqb k)
                      (map index_name (seq 0 (List.length (removeAttr d))))
           then None
           else lookup k a.
Proof.
  intros Hlow H k. unfold modify, modifyWith, modifyAttrs in H.
  destruct (removeAttrs_run (map index_name (seq 0 (List.length (removeAttr d))))
                            t a ls kids n) as (a1 & E1 & Ha1).
  { apply forallb_forall. intros x Hx. apply in_map_iff in Hx as (i & <- & _).
    apply index_name_lower. }
  destruct (setAttrs_run (setAttr d) (keys (setAttr d)) t a1 ls kids n Hlow)
    as (a2 & E2 & Ha2).
  set (Inv := fun el : Node => exists ls0, el = ElementNode t a2 ls0 kids).
  unfold bind at 1 in H. unfold bind at 1 in H. rewrite E1 in H.
  unfold bind at 1 in H. rewrite E2 in H.
  unfold bind at 1 in H.
  destruct (forEach (fun el event =>
                       lift (removeEventListener event
                               (get event (removeListeners d)) el))
                    (keys (removeListeners d)) (ElementNode t a2 ls kids) n)
    as [[el3 n3] |] eqn:E3; [| discriminate].
  assert (H3 : Inv el3).
  { refine (forEach_preserves Inv _ _ _ _ _ _ _ _ E3); [| now exists ls].
    intros el x m el0 m0 (l0 & ->). unfold removeEventListener.
    destruct (get x (removeListeners d)); cbn; try discriminate;
      intros [= <- _]; now eexists. }
  destruct (forEach_invariant Inv
              (fun el event =>
                 bind (newArrow (get event (addListeners d)))
                      (fun cb => ret (addEventListener event cb el)))
              (keys (addListeners d)))
    with (el := el3) (n := n3)
    as (el4 & n4 & E4 & H4); [| exact H3 |].
  { intros el x m (l0 & ->). cbn. unfold addEventListener. cbn.
    destruct (existsb _ l0); eexists _, _; (split; [reflexivity |]); now eexists. }
  destruct H4 as (ls4 & ->). rewrite E4 in H.
  cbn [childNodes] in H.
  destruct (List.length (children d) <? List.length kids)%nat; [discriminate |].
  destruct (applyLoop_parent _ _ _ _ _ _ _ _ _ H) as [kids' ->].
  cbn [attributesOf]. now rewrite Ha2, Ha1.
Qed.

Lemma modify_attributes_witness :
  let d := mkContentsDiff ["id"; "title"] [("class", VStr "y")]
                          [("click", VObj 1)] [] [] in
  let el' := ElementNode "div" [("id", "x"); ("title", "t"); ("class", "y")] [] [] in
  forallb lower_name (keys (setAttr d)) = true
  /\ modify (ElementNode "div" [("id", "x"); ("title", "t")] [] []) d 0 = OK (el', 0)
  /\ lookup "id" (attributesOf el') = Some "x"
  /\ lookup "class" (attributesOf el') = Some "y".
Proof.
  cbv zeta. split; [reflexivity |]. split; [reflexivity |].
  pose proof (modify_attributes "div" [("id", "x"); ("title", "t")] [] []
                (mkContentsDiff ["id"; "title"] [("class", VStr "y")]
                                [("click", VObj 1)] [] [])
                0 _ _ eq_refl eq_refl) as H.
  split; [exact (H "id") | exact (H "class")].
Defined.



(* ================================================================= *)
(** * Diffing and patching together *)

Lemma nth_error_middle {A} (pre post : list A) (x : A) :
  nth_error (pre ++ x :: post) (List.length pre) = Some x.
Proof. induction pre as [| p pre IH]; [reflexivity | exact IH]. Qed.

Lemma replaceAt_middle {A} (pre post : list A) (x y : A) :
  replaceAt (List.length pre) y (pre ++ x :: post) = pre ++ y :: post.
Proof. induction pre as [| p pre IH]; [reflexivity | cbn; now rewrite IH]. Qed.

Lemma removeAt_middle {A} (pre post : list A) (x : A) :
  removeAt (List.length pre) (pre ++ x :: post) = pre ++ post.
Proof. induction pre as [| p pre IH]; [reflexivity | cbn; now rewrite IH]. Qed.

Lemma forall2b_length {A B} (p : A -> B -> bool) (la : list A) (lb : list B) :
  forall2b p la lb = true -> List.length la = List.length lb.
Proof.
  revert lb. induction la as [| a la IH]; intros [| b lb]; cbn; try discriminate;
    [reflexivity |].
  intro H. apply andb_prop in H as [_ H]. f_equal. now apply IH.
Qed.

Lemma step_replace (r : Spec) (t : string) (a : dict string) (ls : list listener)
      (pre post : list Node) (child : Node) (n : nat) :
  clean r = true ->
  exists child' n',
    applyStep (Replace r) (ElementNode t a ls (pre ++ child :: post), List.length pre) n
    = OK ((ElementNode t a ls (pre ++ child' :: post), S (List.length pre)), n')
    /\ shape r child' = true.
Proof.
  intro Hr. destruct (create_clean_shape r n Hr) as (child' & n' & E & Hs).
  exists child', n'. split; [| exact Hs].
  cbn [applyStep childNodes]. unfold bind. rewrite E, nth_error_middle.
  cbn [withChildNodes]. now rewrite replaceAt_middle.
Qed.

Lemma step_remove (t : string) (a : dict string) (ls : list listener)
      (pre post : list Node) (child : Node) (n : nat) :
  applyStep Remove (ElementNode t a ls (pre ++ child :: post), List.length pre) n
  = OK ((ElementNode t a ls (pre ++ post), List.length pre), n).
Proof.
  cbn [applyStep childNodes]. rewrite nth_error_middle.
  cbn [withChildNodes]. now rewrite removeAt_middle.
Qed.

Lemma step_modify (c : ContentsDiff) (t : string) (a : dict string)
      (ls : list listener) (pre post : list Node) (child child' : Node) (n n' : nat) :
  modify child c n = OK (child', n') ->
  applyStep (Modify c) (ElementNode t a ls (pre ++ child :: post), List.length pre) n
  = OK ((ElementNode t a ls (pre ++ child' :: post), S (List.length pre)), n').
Proof.
  intro H. cbn [applyStep childNodes]. rewrite nth_error_middle.
  unfold bind. unfold modify in H. rewrite H.
  cbn [withChildNodes]. now rewrite replaceAt_middle.
Qed.

(** A script of [Create] on a cursor at the end appends the new nodes in
    order. *)
Lemma apply_creates (rs : list Spec) :
  forallb clean rs = true ->
  forall t a ls pre n,
  exists kids' n',
    applyLoop applyStep (map Create rs) (ElementNode t a ls pre, List.length pre) n
    = OK (ElementNode t a ls (pre ++ kids'), n')
    /\ forall2b shape rs kids' = true.
Proof.
  induction rs as [| r rs IH]; intros Hc t a ls pre n.
  - exists [], n. cbn. now rewrite app_nil_r.
  - cbn [forallb] in Hc. apply andb_prop in Hc as [Hr Hc].
    destruct (create_clean_shape r n Hr) as (child & n1 & E & Hs).
    destruct (IH Hc t a ls (pre ++ [child]) n1) as (kids' & n' & E' & Hss).
    exists (child :: kids'), n'. cbn [map applyLoop]. unfold bind at 1.
    cbn [applyStep childNodes]. rewrite Nat.ltb_irrefl.
    unfold bind at 1. rewrite E. unfold bind at 1. cbn [lift appendChild].
    unfold ret at 1. rewrite length_app, Nat.add_1_r in E'. rewrite E'.
    rewrite <- app_assoc. cbn. now rewrite Hs, Hss.
Qed.

Lemma no_string_set (k : string) (v : value) (o : dict value) :
  no_string_values o = true -> is_string v = false ->
  no_string_values (set k v o) = true.
Proof.
  intros Ho Hv. unfold no_string_values in *.
  induction o as [| [k0 v0] o IH]; cbn [set forallb snd].
  - now rewrite Hv.
  - cbn [forallb snd] in Ho. apply andb_prop in Ho as [H0 Ho].
    destruct (String.eqb k k0); cbn [forallb snd].
    + now rewrite Hv, Ho.
    + now rewrite H0, (IH Ho).
Qed.

Lemma handler_get (la : dict value) (attr event : string) :
  forallb handler_ok la = true -> eventName attr = Some event ->
  is_string (get attr la) = false.
Proof.
  intros H Hev. unfold get. induction la as [| [k0 v0] la IH]; [reflexivity |].
  cbn in H |- *. apply andb_prop in H as [H0 H].
  destruct (String.eqb_spec attr k0) as [<- | Hne]; [| now apply IH].
  unfold handler_ok in H0. cbn [fst snd] in H0. rewrite Hev in H0.
  now apply negb_true_iff in H0.
Qed.

(** When the messages of the left dictionary are objects, no value that
    [diffOne] puts under [removeListeners] is a string. *)
Lemma attrDelta_removeListeners (la ra : dict value) :
  forallb handler_ok la = true ->
  no_string_values (d_removeListeners (attrDelta la ra)) = true.
Proof.
  intro H. unfold attrDelta.
  apply (fold_left_invariant
           (fun acc => no_string_values (d_removeListeners acc) = true)).
  - intros acc attr _ Hacc. unfold changedStep.
    destruct (negb _); [| exact Hacc].
    destruct (eventName attr) as [event |] eqn:Ev; cbn [d_removeListeners];
      [| exact Hacc].
    apply no_string_set; [exact Hacc | exact (handler_get la attr event H Ev)].
  - apply (fold_left_invariant
             (fun acc => no_string_values (d_removeListeners acc) = true)).
    + intros acc attr _ Hacc. unfold removedStep.
      destruct (is_undefined _); [| exact Hacc].
      destruct (eventName attr) as [event |] eqn:Ev; cbn [d_removeListeners];
        [| exact Hacc].
      apply no_string_set; [exact Hacc | exact (handler_get la attr event H Ev)].
    + reflexivity.
Qed.

Lemma sync_walk (ls : list Spec) :
  Forall syncs_at ls ->
  forall rs kids,
    forallb clean ls = true -> forallb object_handlers ls = true ->
    forallb clean rs = true ->
    forall2b shape ls kids = true ->
    exists ds,
      diffWalk diffOne ls rs = OK ds
      /\ List.length ls <= List.length ds
      /\ forall t a ls0 pre n,
         exists kids' n',
           applyLoop applyStep ds (ElementNode t a ls0 (pre ++ kids), List.length pre) n
           = OK (ElementNode t a ls0 (pre ++ kids'), n')
           /\ forall2b shape rs kids' = true.
Proof.
  intro H. induction H as [| l ls Hl _ IH]; intros rs kids Hcl Hoh Hcr Hs.
  - destruct kids; [| discriminate]. exists (map Create rs).
    split; [reflexivity |]. split; [cbn; lia |].
    intros t a ls0 pre n. rewrite app_nil_r. now apply apply_creates.
  - destruct kids as [| child kids]; [discriminate |].
    cbn [forallb] in Hcl. apply andb_prop in Hcl as [Hl1 Hcl].
    cbn [forallb] in Hoh. apply andb_prop in Hoh as [Hoh1 Hoh].
    cbn [forall2b] in Hs. apply andb_prop in Hs as [Hs1 Hs].
    cbn [diffWalk]. rewrite (clean_not_empty l Hl1).
    destruct rs as [| r rs].
    + destruct (IH [] kids Hcl Hoh eq_refl Hs) as (ds & E & Hlen & Hrun).
      exists (Remove :: ds). rewrite E. split; [reflexivity |].
      split; [cbn; lia |]. intros t a ls0 pre n.
      destruct (Hrun t a ls0 pre n) as (kids' & n' & E' & Hs').
      exists kids', n'. split; [| exact Hs'].
      cbn [applyLoop]. unfold bind. now rewrite step_remove.
    + cbn [forallb] in Hcr. apply andb_prop in Hcr as [Hr1 Hcr].
      destruct (Hl r child Hl1 Hoh1 Hr1 Hs1) as (d & Ed & Hstep).
      destruct (IH rs kids Hcl Hoh Hcr Hs) as (ds & E & Hlen & Hrun).
      exists (d :: ds). rewrite Ed, E. split; [reflexivity |].
      split; [cbn; lia |]. intros t a ls0 pre n.
      destruct (Hstep t a ls0 pre kids n) as (child' & n1 & E1 & Hc').
      destruct (Hrun t a ls0 (pre ++ [child']) n1) as (kids' & n' & E' & Hs').
      exists (child' :: kids'), n'. cbn [applyLoop]. unfold bind at 1.
      rewrite E1. rewrite length_app, Nat.add_1_r, <- !app_assoc in E'.
      cbn [app] in E'. rewrite E'. cbn [forall2b]. now rewrite Hc', Hs'.
Qed.

Lemma sync_one (l : Spec) : syncs_at l.
Proof.
  induction l as [lt la lc IH | lt |] using Spec_nested_ind;
    intros r child Hl Hoh Hr Hs; [| | discriminate].
  - destruct child as [ct ca cls ckids | ]; [| discriminate].
    cbn [shape] in Hs. apply andb_prop in Hs as [Ht Hs].
    apply String.eqb_eq in Ht. subst ct. cbn [clean] in Hl.
    cbn [object_handlers] in Hoh. apply andb_prop in Hoh as [Hoa Hoc].
    destruct r as [rt ra rc | rt |]; [| | discriminate].
    + cbn [diffOne clean] in *.
      destruct (String.eqb_spec lt rt) as [<- | Hne]; cbn [negb].
      * destruct (sync_walk lc IH (removeEmpty rc) ckids Hl Hoc
                            ltac:(now rewrite clean_removeEmpty) Hs)
          as (ds & E & Hlen & Hrun).
        rewrite E. cbn [rbind]. eexists. split; [reflexivity |].
        intros t a ls pre post n. rewrite (clean_removeEmpty rc Hr) in Hrun.
        unfold finishDiff.
        destruct (forallb is_noop ds && _)%bool eqn:Hnoop.
        -- exists (ElementNode lt ca cls ckids), n. split; [reflexivity |].
           apply andb_prop in Hnoop as [Hnoop _].
           destruct (Hrun lt ca cls [] n) as (kids' & n' & E' & Hs').
           cbn [app List.length] in E'.
           rewrite (applyLoop_noops ds _ 0 n Hnoop) in E'.
           injection E' as <- _. cbn [shape]. now rewrite String.eqb_refl, Hs'.
        -- set (c := mkContentsDiff _ _ _ _ ds).
           destruct (modifyAttrs_element c lt ca cls ckids n
                                         (attrDelta_removeListeners la ra Hoa))
             as (a' & ls' & n1 & Ea).
           destruct (Hrun lt a' ls' [] n1) as (kids' & n' & E' & Hs').
           cbn [app List.length] in E'.
           exists (ElementNode lt a' ls' kids'), n'. split.
           ++ apply step_modify. unfold modify, modifyWith, bind. rewrite Ea.
              cbn [childNodes children c].
              replace (List.length ds <? List.length ckids)%nat with false; [exact E' |].
              symmetry. apply Nat.ltb_ge.
              rewrite <- (forall2b_length _ _ _ Hs). exact Hlen.
           ++ cbn [shape]. now rewrite String.eqb_refl, Hs'.
      * eexists. split; [reflexivity |]. intros t a ls pre post n.
        now apply step_replace.
    + cbn [diffOne]. eexists. split; [reflexivity |]. intros t a ls pre post n.
      now apply step_replace.
  - destruct child as [| d cls]; [discriminate |]. cbn [shape] in Hs.
    apply String.eqb_eq in Hs. subst d.
    destruct r as [rt ra rc | rt |]; [| | discriminate]; cbn [diffOne].
    + eexists. split; [reflexivity |]. intros t a ls pre post n.
      now apply step_replace.
    + destruct (String.eqb_spec lt rt) as [<- | Hne]; cbn [negb].
      * eexists. split; [reflexivity |]. intros t a ls pre post n.
        exists (TextNode lt cls), n. split; [reflexivity |].
        cbn. apply String.eqb_refl.
      * eexists. split; [reflexivity |]. intros t a ls pre post n.
        now apply step_replace.
Qed.

Lemma diff_apply_sync (prev next : list Spec) (t : string) (a : dict string)
      (ls : list listener) (kids : list Node) (n : nat) :
  forallb clean prev = true -> forallb object_handlers prev = true ->
  forallb clean next = true ->
  forall2b shape prev kids = true ->
  exists ds kids' n',
    diffList prev next = OK ds
    /\ apply (ElementNode t a ls kids) ds n = OK (ElementNode t a ls kids', n')
    /\ forall2b shape next kids' = true.
Proof.
  intros Hp Ho Hn Hs.
  destruct (sync_walk prev ltac:(apply Forall_forall; intros; apply sync_one)
                      next kids Hp Ho Hn Hs) as (ds & E & _ & Hrun).
  destruct (Hrun t a ls [] n) as (kids' & n' & E' & Hs').
  exists ds, kids', n'. split; [| split; [exact E' | exact Hs']].
  now rewrite <- diffList_unfold, (clean_removeEmpty next Hn).
Qed.

(** When the live children of a node are those of the specs [prev],
    neither [prev] nor [next] holds an [Empty] node, and the messages
    in [prev] are objects, applying [diffList(prev, next)] to the node
    does not throw and leaves it with the live children of [next]:
    their tags, texts and child structure.  (With a string message in
    [prev], [removeEventListener] can throw instead.) *)
Theorem patch_sync (prev next : list Spec) (t : string) (a : dict string)
        (ls : list listener) (kids : list Node) (n : nat) :
  forallb clean prev = true -> forallb object_handlers prev = true ->
  forallb clean next = true ->
  forall2b shape prev kids = true ->
  exists ds kids' n',
    diffList prev next = OK ds
    /\ apply (ElementNode t a ls kids) ds n = OK (ElementNode t a ls kids', n')
    /\ forall2b shape next kids' = true.
Proof.
  intros Hp Ho Hn Hs.
  assert (Hall : Forall syncs_at prev)
    by (apply Forall_forall; intros; apply sync_one).
  destruct (sync_walk prev Hall next kids Hp Ho Hn Hs) as (ds & E & _ & Hrun).
  destruct (Hrun t a ls [] n) as (kids' & n' & E' & Hs').
  exists ds, kids', n'. rewrite <- diffList_unfold, (clean_removeEmpty next Hn).
  now repeat split.
Qed.

Lemma patch_sync_witness :
  let prev := [Element "ul" [("onclick", VObj 1)] [Text "a"; Text "b"]; Text "old"] in
  let next := [Element "ul" [("class", VStr "c"); ("onclick", VObj 2)] [Text "a"];
               Element "p" [] [Text "new"]; Text "tail"] in
  let kids := [ElementNode "ul" [] [mkListener "click" (Arrow 0 (VObj 1))]
                           [TextNode "a" []; TextNode "b" []];
               TextNode "old" []] in
  (forallb clean prev = true /\ forallb object_handlers prev = true
   /\ forallb clean next = true /\ forall2b shape prev kids = true)
  /\ exists ds kids' n',
       diffList prev next = OK ds
       /\ apply (ElementNode "main" [] [] kids) ds 1
          = OK (ElementNode "main" [] [] kids', n')
       /\ forall2b shape next kids' = true.
Proof.
  cbv zeta. split; [repeat split |].
  exact (patch_sync
           [Element "ul" [("onclick", VObj 1)] [Text "a"; Text "b"]; Text "old"]
           [Element "ul" [("class", VStr "c"); ("onclick", VObj 2)] [Text "a"];
            Element "p" [] [Text "new"]; Text "tail"]
           "main" [] []
           [ElementNode "ul" [] [mkListener "click" (Arrow 0 (VObj 1))]
                        [TextNode "a" []; TextNode "b" []];
            TextNode "old" []]
           1 eq_refl eq_refl eq_refl eq_refl).
Defined.

(* ================================================================= *)
(** * Further properties of the loop *)

Lemma diffList_from_nothing (next : list Spec) :
  diffList [] next = OK (map Create (removeEmpty next)).
Proof. unfold diffList. cbn [removeEmpty filter List.length Nat.max]. apply diffLoop_creates. Qed.

(** The first [draw] on a root without children, for a view without
    [Empty] nodes: it returns, the root has the live children of the
    view, and the view is the current spec. *)
Theorem init_mounts (State : Type) (view : State -> list Spec)
        (t : string) (a : dict string) (ls : list listener) (s0 : State) :
  forallb clean (view s0) = true ->
  exists L,
    snd (init view (ElementNode t a ls []) s0) = OK L
    /\ state L = s0 /\ spec L = view s0 /\ queue L = []
    /\ in_sync L = true.
Proof.
  intro Hc. unfold init, draw. cbn [state spec queue root nextRef].
  destruct (diff_apply_sync [] (view s0) t a ls [] 0 eq_refl eq_refl Hc eq_refl)
    as (ds & kids' & n' & Ed & Ea & Hs).
  rewrite Ed. cbn [snd]. rewrite Ea.
  eexists. split; [reflexivity |]. now repeat split.
Qed.

Lemma init_mounts_witness :
  forallb clean (Counter.view 3) = true
  /\ exists L,
       snd (init Counter.view (ElementNode "main" [] [] []) 3) = OK L
       /\ state L = 3 /\ spec L = Counter.view 3 /\ queue L = []
       /\ in_sync L = true.
Proof.
  split; [reflexivity |].
  exact (init_mounts nat Counter.view "main" [] [] 3 eq_refl).
Defined.

(** On a root that has children already, the first [draw] of a view
    with a node to render throws "Adding in the middle of children". *)
Theorem init_on_populated_root (State : Type) (view : State -> list Spec)
        (rootNode : Node) (s0 : State) :
  childNodes rootNode <> [] -> removeEmpty (view s0) <> [] ->
  snd (init view rootNode s0)
  = Err (AddingInTheMiddle 0 (List.length (childNodes rootNode))).
Proof.
  intros Hk Hv. unfold init, draw. cbn [state spec queue root nextRef].
  rewrite diffList_from_nothing. cbn [snd].
  destruct (removeEmpty (view s0)) as [| r rs]; [congruence |].
  destruct rootNode as [t a ls kids | d ls]; [| now cbn in Hk].
  cbn [childNodes] in *. destruct kids as [| kid kids]; [congruence |].
  reflexivity.
Qed.

Lemma init_on_populated_root_witness :
  childNodes (ElementNode "main" [] [] [TextNode "loading" []]) <> []
  /\ removeEmpty (Counter.view 0) <> []
  /\ snd (init Counter.view (ElementNode "main" [] [] [TextNode "loading" []]) 0)
     = Err (AddingInTheMiddle 0 1).
Proof.
  assert (H1 : childNodes (ElementNode "main" [] [] [TextNode "loading" []]) <> [])
    by discriminate.
  assert (H2 : removeEmpty (Counter.view 0) <> []) by discriminate.
  split; [exact H1 |]. split; [exact H2 |].
  exact (init_on_populated_root nat Counter.view
           (ElementNode "main" [] [] [TextNode "loading" []]) 0 H1 H2).
Defined.

Section LoopInvariant.
Variable State : Type.
Variable update : State -> value -> State * list value.
Variable view : State -> list Spec.

Lemma draws_updateCalls (s : State) (msgs : list value) :
  draws (updateCalls update s msgs) = 0.
Proof.
  revert s. induction msgs as [| m msgs IH]; intro s; [reflexivity |].
  cbn. apply IH.
Qed.

(** A run of [updateState] on any queue.  On the empty queue it calls
    nothing and changes nothing.  Otherwise it calls [update] on every
    queued message in order, then [view] and [apply] once, on the state
    folded over all the messages; the queue it leaves holds what the
    calls of [update] enqueued. *)
Theorem updateState_any_queue (L : Loop State) :
  let s := foldUpdate update (state L) (queue L) in
  match queue L with
  | [] => updateState update view L = ([], OK L)
  | _ :: _ =>
      exists diffs,
        diffList (spec L) (view s) = OK diffs
        /\ fst (updateState update view L)
           = updateCalls update (state L) (queue L) ++ [CallView s; CallApply diffs]
        /\ draws (fst (updateState update view L)) = 1
        /\ snd (updateState update view L)
           = match apply (root L) diffs (nextRef L) with
             | Err e => Err e
             | OK (root', n') =>
                 OK (mkLoop s (view s) (sentBy update (state L) (queue L)) root' n')
             end
  end.
Proof.
  cbv zeta. destruct (queue L) as [| m q] eqn:Eq.
  - unfold updateState. now rewrite Eq.
  - rewrite (updateState_batch State update view L) by (rewrite Eq; discriminate).
    rewrite Eq.
    destruct (draw_calls State view
                (mkLoop (foldUpdate update (state L) (m :: q)) (spec L)
                        (sentBy update (state L) (m :: q)) (root L) (nextRef L)))
      as (diffs & Hd & Hcalls & Hres).
    cbn [state spec queue root nextRef] in Hd, Hcalls, Hres.
    exists diffs. cbn [fst snd]. rewrite Hcalls, Hres.
    split; [exact Hd |]. split; [reflexivity |]. split; [| reflexivity].
    unfold draws. rewrite filter_app, length_app.
    fold (draws (updateCalls update (state L) (m :: q))).
    now rewrite draws_updateCalls.
Qed.

(** The loop keeps the live tree in step with the spec: if the view
    never yields an [Empty] node or a string as a message, and the
    children of the root are those of the current spec, a run of
    [updateState] does not throw, and afterwards the children of the
    root are again those of the current spec. *)
Theorem updateState_keeps_sync (L : Loop State) :
  (forall s, forallb clean (view s) = true) ->
  (forall s, forallb object_handlers (view s) = true) ->
  forallb clean (spec L) = true -> forallb object_handlers (spec L) = true ->
  in_sync L = true ->
  exists L',
    snd (updateState update view L) = OK L'
    /\ forallb clean (spec L') = true
    /\ forallb object_handlers (spec L') = true
    /\ in_sync L' = true
    /\ state L' = foldUpdate update (state L) (queue L)
    /\ (queue L <> [] -> spec L' = view (state L')).
Proof.
  intros Hview Hobj Hclean Hoh Hsync.
  destruct (queue L) as [| m q] eqn:Eq.
  - exists L. unfold updateState. rewrite Eq. cbn. repeat split; auto. congruence.
  - rewrite (updateState_batch State update view L) by (rewrite Eq; discriminate).
    rewrite Eq. cbn [snd]. set (s := foldUpdate update (state L) (m :: q)).
    unfold in_sync in Hsync. destruct (root L) as [t a ls kids | ] eqn:Er;
      [| discriminate].
    destruct (diff_apply_sync (spec L) (view s) t a ls kids (nextRef L)
                              Hclean Hoh (Hview s) Hsync)
      as (ds & kids' & n' & Ed & Ea & Hs).
    unfold draw. cbn [state spec queue root nextRef]. rewrite Ed. cbn [snd].
    rewrite Ea. eexists. split; [reflexivity |].
    cbn [state spec queue root nextRef]. unfold in_sync. cbn [root spec].
    repeat split; auto.
Qed.
End LoopInvariant.

Lemma updateState_keeps_sync_witness :
  let L := mkLoop 1 (Clicker.view 1) [VObj 0; VObj 0]
                  (ElementNode "main" [] []
                     [ElementNode "button" [("class", "1")]
                                  [mkListener "click" (Arrow 0 (VObj 1))]
                                  [TextNode "1" []]]) 1 in
  ((forall s, forallb clean (Clicker.view s) = true)
   /\ (forall s, forallb object_handlers (Clicker.view s) = true)
   /\ forallb clean (spec L) = true /\ forallb object_handlers (spec L) = true
   /\ in_sync L = true)
  /\ exists L',
       snd (updateState Clicker.update Clicker.view L) = OK L'
       /\ forallb clean (spec L') = true
       /\ forallb object_handlers (spec L') = true
       /\ in_sync L' = true
       /\ state L' = 3
       /\ (queue L <> [] -> spec L' = Clicker.view (state L')).
Proof.
  cbv zeta.
  assert (Hv : forall s, forallb clean (Clicker.view s) = true) by (intro s; reflexivity).
  assert (Ho : forall s, forallb object_handlers (Clicker.view s) = true)
    by (intro s; reflexivity).
  split; [repeat split; assumption |].
  exact (updateState_keeps_sync nat Clicker.update Clicker.view
           (mkLoop 1 (Clicker.view 1) [VObj 0; VObj 0]
                   (ElementNode "main" [] []
                      [ElementNode "button" [("class", "1")]
                                   [mkListener "click" (Arrow 0 (VObj 1))]
                                   [TextNode "1" []]]) 1)
           Hv Ho eq_refl eq_refl eq_refl).
Defined.
